(** * Trilinear interpolation kernels (interpolation_kernel.cu)

    A shallow embedding of the two CUDA kernels and their host wrappers:
    [trilinear_forward_kernel], [trilinear_forward_cu],
    [trilinear_backward_kernel] and [trilinear_backward_cu].

    - The element type [scalar_t] is a template parameter of the source; here
      it is a type class [Scalar] whose operations are exactly the ones the
      kernels use.  The real numbers give the exact-arithmetic instance, the
      rationals an instance that evaluates.
    - [int], [unsigned int] and [size_t] values are integers with their
      wrap-around written out.
    - A tensor handed in by the caller is a shape and a total element
      function; a tensor obtained from [torch::empty] is a shape and a finite
      map of the cells stored so far (an absent cell is uninitialised).  The
      rank and the element type of a tensor are those of its type here:
      [packed_accessor<scalar_t, 3>] lets no other tensor reach a kernel.
    - A unit of work (one CUDA thread) yields the list of stores it performs,
      or nothing when it indexes an accessor outside its shape, which the
      source leaves undefined.
    - A launch runs every thread of the grid once.  The device chooses the
      order; [launch] takes the order of [grid_threads], and the section on
      schedules shows that no other order changes what the wrappers return.
      Limits a device puts on grid extents and on memory are not part of
      this model. *)

From Stdlib Require Import ZArith QArith Reals Lra Lia List.
From stdpp Require Import base option list gmap.

Local Open Scope Z_scope.

(** ** Machine integers *)

Module MachineInt.

(** Conversion to [unsigned int] (32 bits). *)
Definition to_uint (z : Z) : Z := z mod 2 ^ 32.

(** Conversion to [int] (32 bits, two's complement). *)
Definition to_int (z : Z) : Z := (z + 2 ^ 31) mod 2 ^ 32 - 2 ^ 31.

(** Conversion to [size_t] (64 bits). *)
Definition to_size_t (z : Z) : Z := z mod 2 ^ 64.

Definition INT_MAX : Z := 2 ^ 31 - 1.

(** A tensor extent, an [int64_t] that is never negative. *)
Definition is_extent (z : Z) : Prop := 0 <= z < 2 ^ 63.

(** An extent that an [int] holds without change. *)
Definition fits_int (z : Z) : Prop := 0 <= z <= INT_MAX.

End MachineInt.
Import MachineInt.

Record dim3 := Dim3 { dx : Z; dy : Z; dz : Z }.

(** ** The element type *)

Class Scalar (T : Type) := {
  s_lit : Z -> T;          (* an integer literal converted to scalar_t *)
  s_add : T -> T -> T;
  s_sub : T -> T -> T;
  s_mul : T -> T -> T;
  s_div : T -> T -> T
}.

Declare Scope scalar_scope.
Delimit Scope scalar_scope with S.
Notation "x + y" := (s_add x y) : scalar_scope.
Notation "x - y" := (s_sub x y) : scalar_scope.
Notation "x * y" := (s_mul x y) : scalar_scope.
Notation "x / y" := (s_div x y) : scalar_scope.
Notation "1" := (s_lit 1) : scalar_scope.
Notation "2" := (s_lit 2) : scalar_scope.

#[export] Instance R_Scalar : Scalar R :=
  {| s_lit := IZR; s_add := Rplus; s_sub := Rminus; s_mul := Rmult; s_div := Rdiv |}.

#[export] Instance Q_Scalar : Scalar Q :=
  {| s_lit := inject_Z; s_add := Qplus; s_sub := Qminus; s_mul := Qmult; s_div := Qdiv |}.

(** ** Tensors and accessors *)

(** A caller's tensor of rank 3 and of rank 2. *)
Record Tensor3 (T : Type) := MkTensor3 {
  t3_size0 : Z; t3_size1 : Z; t3_size2 : Z;
  t3_data : Z -> Z -> Z -> T
}.
Record Tensor2 (T : Type) := MkTensor2 {
  t2_size0 : Z; t2_size1 : Z;
  t2_data : Z -> Z -> T
}.
Arguments MkTensor3 {T}.
Arguments t3_size0 {T}.
Arguments t3_size1 {T}.
Arguments t3_size2 {T}.
Arguments t3_data {T}.
Arguments MkTensor2 {T}.
Arguments t2_size0 {T}.
Arguments t2_size1 {T}.
Arguments t2_data {T}.

(** A tensor from [torch::empty]: its cells hold nothing until stored to. *)
Record Buffer3 (T : Type) := MkBuffer3 {
  b3_size0 : Z; b3_size1 : Z; b3_size2 : Z;
  b3_cells : gmap (Z * Z * Z) T
}.
Record Buffer2 (T : Type) := MkBuffer2 {
  b2_size0 : Z; b2_size1 : Z;
  b2_cells : gmap (Z * Z) T
}.
Arguments MkBuffer3 {T}.
Arguments b3_size0 {T}.
Arguments b3_size1 {T}.
Arguments b3_size2 {T}.
Arguments b3_cells {T}.
Arguments MkBuffer2 {T}.
Arguments b2_size0 {T}.
Arguments b2_size1 {T}.
Arguments b2_cells {T}.

(** What a call of a host wrapper comes to. *)
Inductive outcome (A : Type) :=
| Returned (a : A)      (* the wrapper returns this tensor *)
| Threw                 (* an exception leaves the wrapper before any launch *)
| Undefined.            (* a unit of work indexed outside an accessor *)
Arguments Returned {A}.
Arguments Threw {A}.
Arguments Undefined {A}.

Section Kernels.

Context {T : Type} `{Scalar T}.
Local Open Scope scalar_scope.

(** *** Accessor indexing: [acc[i][j][k]], indices of type [size_t] *)

Definition in_extent (i size : Z) : bool := (0 <=? i)%Z && (i <? size)%Z.

Definition read3 (t : Tensor3 T) (i j k : Z) : option T :=
  if in_extent i (t3_size0 t) && in_extent j (t3_size1 t) && in_extent k (t3_size2 t)
  then Some (t3_data t i j k) else None.

Definition read2 (t : Tensor2 T) (i j : Z) : option T :=
  if in_extent i (t2_size0 t) && in_extent j (t2_size1 t)
  then Some (t2_data t i j) else None.

(** A store [acc[i][j] = v], recorded as the cell and the value. *)
Definition store2 (b : Buffer2 T) (i j : Z) (v : T) : option (list (Z * Z * T)) :=
  if in_extent i (b2_size0 b) && in_extent j (b2_size1 b)
  then Some [((i, j), v)] else None.

Definition store3 (b : Buffer3 T) (i j k : Z) (v : T) : option (list (Z * Z * Z * T)) :=
  if in_extent i (b3_size0 b) && in_extent j (b3_size1 b) && in_extent k (b3_size2 b)
  then Some [((i, j, k), v)] else None.

(** *** The forward kernel, one thread (lines 3-33)

    [n] and [f] are [int]s computed in [unsigned int]; the guard compares
    them with the [size_t] extents of the accessor, and [operator[]] takes
    them as [size_t]. *)

Definition trilinear_forward_kernel
    (features : Tensor3 T) (points : Tensor2 T) (output : Buffer2 T)
    (blockDim blockIdx threadIdx : dim3) : option (list (Z * Z * T)) :=
  let n := to_int (to_uint (to_uint (dx blockDim * dx blockIdx) + dx threadIdx)) in
  let f := to_int (to_uint (to_uint (dy blockDim * dy blockIdx) + dy threadIdx)) in
  if (to_size_t n <? t3_size0 features)%Z && (to_size_t f <? t3_size2 features)%Z then
    let n := to_size_t n in
    let f := to_size_t f in
    p0 ← read2 points n 0;
    p1 ← read2 points n 1;
    p2 ← read2 points n 2;
    let u := (p0 + 1) / 2 in
    let v := (p1 + 1) / 2 in
    let w := (p2 + 1) / 2 in
    let a := (1 - v) * (1 - w) in
    let b := (1 - v) * w in
    let c := v * (1 - w) in
    let d := 1 - a - b - c in
    f0 ← read3 features n 0 f;
    f1 ← read3 features n 1 f;
    f2 ← read3 features n 2 f;
    f3 ← read3 features n 3 f;
    f4 ← read3 features n 4 f;
    f5 ← read3 features n 5 f;
    f6 ← read3 features n 6 f;
    f7 ← read3 features n 7 f;
    store2 output n f
      ((1 - u) * (a * f0 + b * f1 + c * f2 + d * f3)
       + u * (a * f4 + b * f5 + c * f6 + d * f7))
  else Some [].

(** *** The backward kernel, one thread (lines 65-97)

    [features] serves for its extents only. *)

Definition trilinear_backward_kernel
    (features : Tensor3 T) (points : Tensor2 T)
    (dL_dfeatInterpOutput : Tensor2 T) (dL_dFeatures : Buffer3 T)
    (blockDim blockIdx threadIdx : dim3) : option (list (Z * Z * Z * T)) :=
  let n := to_int (to_uint (to_uint (dx blockDim * dx blockIdx) + dx threadIdx)) in
  let f := to_int (to_uint (to_uint (dy blockDim * dy blockIdx) + dy threadIdx)) in
  if (to_size_t n <? t3_size0 features)%Z && (to_size_t f <? t3_size2 features)%Z then
    let n := to_size_t n in
    let f := to_size_t f in
    p0 ← read2 points n 0;
    p1 ← read2 points n 1;
    p2 ← read2 points n 2;
    let u := (p0 + 1) / 2 in
    let v := (p1 + 1) / 2 in
    let w := (p2 + 1) / 2 in
    let a := (1 - v) * (1 - w) in
    let b := (1 - v) * w in
    let c := v * (1 - w) in
    let d := 1 - a - b - c in
    g0 ← read2 dL_dfeatInterpOutput n f;
    s0 ← store3 dL_dFeatures n 0 f ((1 - u) * a * g0);
    g1 ← read2 dL_dfeatInterpOutput n f;
    s1 ← store3 dL_dFeatures n 1 f ((1 - u) * b * g1);
    g2 ← read2 dL_dfeatInterpOutput n f;
    s2 ← store3 dL_dFeatures n 2 f ((1 - u) * c * g2);
    g3 ← read2 dL_dfeatInterpOutput n f;
    s3 ← store3 dL_dFeatures n 3 f ((1 - u) * d * g3);
    g4 ← read2 dL_dfeatInterpOutput n f;
    s4 ← store3 dL_dFeatures n 4 f (u * a * g4);
    g5 ← read2 dL_dfeatInterpOutput n f;
    s5 ← store3 dL_dFeatures n 5 f (u * b * g5);
    g6 ← read2 dL_dfeatInterpOutput n f;
    s6 ← store3 dL_dFeatures n 6 f (u * c * g6);
    g7 ← read2 dL_dfeatInterpOutput n f;
    s7 ← store3 dL_dFeatures n 7 f (u * d * g7);
    Some (s0 ++ s1 ++ s2 ++ s3 ++ s4 ++ s5 ++ s6 ++ s7)
  else Some [].

(** *** A launch [kernel<<<numBlocks, numThreadsPerBlock>>>(...)] *)

Definition block_indices (numBlocks : dim3) : list dim3 :=
  bx ← seqZ 0 (dx numBlocks);
  by' ← seqZ 0 (dy numBlocks);
  bz ← seqZ 0 (dz numBlocks);
  [Dim3 bx by' bz].

Definition grid_threads (numBlocks numThreadsPerBlock : dim3) : list (dim3 * dim3) :=
  b ← block_indices numBlocks;
  t ← block_indices numThreadsPerBlock;
  [(b, t)].

(** The threads of a schedule run one after the other; the stores are kept
    in the order of the run, and the run is undefined when a thread is. *)
Definition run_threads {W : Type} (kernel : dim3 -> dim3 -> dim3 -> option (list W))
    (blockDim : dim3) (schedule : list (dim3 * dim3)) : option (list W) :=
  @concat W <$> mapM (fun bt => kernel blockDim (fst bt) (snd bt)) schedule.

(** A launch runs every thread of the grid once.  The order is the device's
    to choose; the order of [grid_threads] stands for it. *)
Definition launch {W : Type} (kernel : dim3 -> dim3 -> dim3 -> option (list W))
    (numBlocks numThreadsPerBlock : dim3) : option (list W) :=
  run_threads kernel numThreadsPerBlock (grid_threads numBlocks numThreadsPerBlock).

Definition apply_stores {K} `{Countable K} (log : list (K * T)) (m : gmap K T)
    : gmap K T :=
  foldl (fun m kv => <[fst kv := snd kv]> m) m log.

(** *** [torch::empty]: a negative extent is refused *)

Definition torch_empty2 (s0 s1 : Z) : option (Buffer2 T) :=
  if (0 <=? s0)%Z && (0 <=? s1)%Z then Some (MkBuffer2 s0 s1 ∅) else None.

Definition torch_empty3 (s0 s1 s2 : Z) : option (Buffer3 T) :=
  if (0 <=? s0)%Z && (0 <=? s1)%Z && (0 <=? s2)%Z
  then Some (MkBuffer3 s0 s1 s2 ∅) else None.

(** [(N + numThreadsPerBlock.x - 1) / numThreadsPerBlock.x], computed in
    [unsigned int] because the extent of a [dim3] is unsigned. *)
Definition blocks_for (N threads : Z) : Z :=
  (to_uint (to_uint (to_uint N + threads) - 1) / threads)%Z.

(** *** The host wrappers (lines 36-63 and 100-127)

    N and F are [int]s taken from the [int64_t] extents of [features]; no
    other extent is looked at. *)

Definition trilinear_forward_cu (features : Tensor3 T) (points : Tensor2 T)
    : outcome (Buffer2 T) :=
  let N := to_int (t3_size0 features) in
  let F := to_int (t3_size2 features) in
  match torch_empty2 N F with
  | None => Threw
  | Some featInterpOutput =>
    let numThreadsPerBlock := Dim3 16 16 1 in
    let numBlocks :=
      Dim3 (blocks_for N (dx numThreadsPerBlock))
           (blocks_for F (dy numThreadsPerBlock)) 1 in
    match launch (trilinear_forward_kernel features points featInterpOutput)
                 numBlocks numThreadsPerBlock with
    | None => Undefined
    | Some log =>
      Returned (MkBuffer2 (b2_size0 featInterpOutput) (b2_size1 featInterpOutput)
                          (apply_stores log (b2_cells featInterpOutput)))
    end
  end.

Definition trilinear_backward_cu
    (dL_dfeatInterpOutput : Tensor2 T) (features : Tensor3 T) (points : Tensor2 T)
    : outcome (Buffer3 T) :=
  let N := to_int (t3_size0 features) in
  let F := to_int (t3_size2 features) in
  match torch_empty3 N 8 F with
  | None => Threw
  | Some dL_dFeatures =>
    let numThreadsPerBlock := Dim3 16 16 1 in
    let numBlocks :=
      Dim3 (blocks_for N (dx numThreadsPerBlock))
           (blocks_for F (dy numThreadsPerBlock)) 1 in
    match launch (trilinear_backward_kernel features points dL_dfeatInterpOutput
                    dL_dFeatures)
                 numBlocks numThreadsPerBlock with
    | None => Undefined
    | Some log =>
      Returned (MkBuffer3 (b3_size0 dL_dFeatures) (b3_size1 dL_dFeatures)
                          (b3_size2 dL_dFeatures)
                          (apply_stores log (b3_cells dL_dFeatures)))
    end
  end.

End Kernels.

(** ** The scenario of the specification, evaluated *)

Definition scenario_features : Tensor3 Q :=
  MkTensor3 1 8 1 (fun _ c _ => if (c <? 4)%Z then 0%Q else 1%Q).
Definition scenario_points : Tensor2 Q :=
  MkTensor2 1 3 (fun _ j => if (j =? 0)%Z then 0%Q else (-1)%Q).
Definition scenario_grad : Tensor2 Q := MkTensor2 1 1 (fun _ _ => 2%Q).

(** ** Reading a result *)

(** The stores of a log that go to one cell, in the order of the log. *)
Definition stores_to {K T : Type} `{EqDecision K} (k : K) (log : list (K * T))
    : list (K * T) :=
  filter (fun kv => fst kv = k) log.

(** The content of a cell of the returned tensor, when the call returns and
    the cell was stored to. *)
Definition cell2 {T} (r : outcome (Buffer2 T)) (n f : Z) : option T :=
  match r with Returned out => b2_cells out !! (n, f) | _ => None end.
Definition cell3 {T} (r : outcome (Buffer3 T)) (n c f : Z) : option T :=
  match r with Returned out => b3_cells out !! (n, c, f) | _ => None end.

(** The grid and the block of both wrappers, for [int]s N and F. *)
Definition tile_grid (N F : Z) : dim3 := Dim3 (blocks_for N 16) (blocks_for F 16) 1.
Definition tile_block : dim3 := Dim3 16 16 1.

(** The stores of a launch over that grid in which the thread of the index
    pair (n, f) performs [stores n f] when the pair lies inside the extents,
    and nothing otherwise. *)
Definition tiled_log {W : Type} (stores : Z -> Z -> list W) (N F : Z) : list W :=
  concat ((fun bt : dim3 * dim3 =>
             if decide (16 * dx (fst bt) + dx (snd bt) < N /\
                        16 * dy (fst bt) + dy (snd bt) < F)
             then stores (16 * dx (fst bt) + dx (snd bt))
                         (16 * dy (fst bt) + dy (snd bt))
             else []) <$> grid_threads (tile_grid N F) tile_block).

(** The thread that owns the index pair (n, f). *)
Definition owner (n f : Z) : dim3 * dim3 :=
  (Dim3 (n / 16) (f / 16) 0, Dim3 (n mod 16) (f mod 16) 0).

(** ** What one unit of work computes *)

Section Values.

Context {T : Type} `{Scalar T}.
Local Open Scope scalar_scope.

(** The value the forward kernel stores for the index pair (n, f). *)
Definition forward_value (features : Tensor3 T) (points : Tensor2 T) (n f : Z) : T :=
  let u := (t2_data points n 0 + 1) / 2 in
  let v := (t2_data points n 1 + 1) / 2 in
  let w := (t2_data points n 2 + 1) / 2 in
  let a := (1 - v) * (1 - w) in
  let b := (1 - v) * w in
  let c := v * (1 - w) in
  let d := 1 - a - b - c in
  (1 - u) * (a * t3_data features n 0 f + b * t3_data features n 1 f
             + c * t3_data features n 2 f + d * t3_data features n 3 f)
  + u * (a * t3_data features n 4 f + b * t3_data features n 5 f
         + c * t3_data features n 6 f + d * t3_data features n 7 f).

(** The stores of the forward kernel for the index pair (n, f). *)
Definition forward_stores (features : Tensor3 T) (points : Tensor2 T) (n f : Z)
    : list (Z * Z * T) :=
  [((n, f), forward_value features points n f)].

(** The eight factors, corner by corner, that the forward kernel puts on
    the corner features and the backward kernel on the upstream gradient. *)
Definition corner_weights (p0 p1 p2 : T) : list T :=
  let u := (p0 + 1) / 2 in
  let v := (p1 + 1) / 2 in
  let w := (p2 + 1) / 2 in
  let a := (1 - v) * (1 - w) in
  let b := (1 - v) * w in
  let c := v * (1 - w) in
  let d := 1 - a - b - c in
  [(1 - u) * a; (1 - u) * b; (1 - u) * c; (1 - u) * d;
   u * a; u * b; u * c; u * d].

(** The stores of the backward kernel for the index pair (n, f). *)
Definition backward_stores (points grad : Tensor2 T) (n f : Z)
    : list (Z * Z * Z * T) :=
  imap (fun c wt => ((n, Z.of_nat c, f), wt * t2_data grad n f))
       (corner_weights (t2_data points n 0) (t2_data points n 1) (t2_data points n 2)).

(** The shapes under which no unit of work leaves an accessor. *)
Definition forward_shapes_suffice (features : Tensor3 T) (points : Tensor2 T) : Prop :=
  8 <= t3_size1 features /\
  t3_size0 features <= t2_size0 points /\ 3 <= t2_size1 points.

Definition backward_shapes_suffice
    (grad : Tensor2 T) (features : Tensor3 T) (points : Tensor2 T) : Prop :=
  t3_size0 features <= t2_size0 points /\ 3 <= t2_size1 points /\
  t3_size0 features <= t2_size0 grad /\ t3_size2 features <= t2_size1 grad.

(** The shapes of the data model: Features (N, 8, F), Points (N, 3) and
    UpstreamGradient (N, F). *)
Definition forward_shapes (features : Tensor3 T) (points : Tensor2 T) : Prop :=
  t3_size1 features = 8 /\
  t2_size0 points = t3_size0 features /\ t2_size1 points = 3.

Definition backward_shapes
    (grad : Tensor2 T) (features : Tensor3 T) (points : Tensor2 T) : Prop :=
  forward_shapes features points /\
  t2_size0 grad = t3_size0 features /\ t2_size1 grad = t3_size2 features.

(** A call in the shapes of the data model whose extents N and F the [int]
    of the wrapper holds. *)
Definition forward_call_ok (features : Tensor3 T) (points : Tensor2 T) : Prop :=
  t3_size1 features = 8 /\
  t2_size0 points = t3_size0 features /\ t2_size1 points = 3 /\
  fits_int (t3_size0 features) /\ fits_int (t3_size2 features).

Definition backward_call_ok
    (grad : Tensor2 T) (features : Tensor3 T) (points : Tensor2 T) : Prop :=
  forward_call_ok features points /\
  t2_size0 grad = t3_size0 features /\ t2_size1 grad = t3_size2 features.

End Values.

(** ** The launch configuration *)

(** ceil(a / b), for b > 0. *)
Definition ceil_div (a b : Z) : Z := - (- a / b).

(** The index pair a thread of a 16 x 16 block derives for itself. *)
Definition thread_n (b t : dim3) : Z := to_int (to_uint (to_uint (16 * dx b) + dx t)).
Definition thread_f (b t : dim3) : Z := to_int (to_uint (to_uint (16 * dy b) + dy t)).

(** The forward launch tiles the index space N x F: the grid has
    ceil(N/16) x ceil(F/16) blocks; the output is allocated and the launch
    runs to its end with every access inside its accessor; a thread whose
    index pair lies outside the extents stores nothing; and every cell
    (n, f) inside is stored to by one thread of the grid, once, and by no
    other. *)
Definition launch_partitions {T} `{Scalar T} (features : Tensor3 T) (points : Tensor2 T)
    : Prop :=
  let N := t3_size0 features in
  let F := t3_size2 features in
  let grid := tile_grid (to_int N) (to_int F) in
  grid = Dim3 (ceil_div N 16) (ceil_div F 16) 1 /\
  exists out log,
    torch_empty2 (to_int N) (to_int F) = Some out /\
    launch (trilinear_forward_kernel features points out) grid tile_block = Some log /\
    trilinear_forward_cu features points =
      Returned (MkBuffer2 N F (apply_stores log ∅)) /\
    (forall b t, (b, t) ∈ grid_threads grid tile_block ->
       ~ (0 <= thread_n b t < N /\ 0 <= thread_f b t < F) ->
       trilinear_forward_kernel features points out tile_block b t = Some []) /\
    (forall n f, 0 <= n < N -> 0 <= f < F ->
       exists bt v,
         bt ∈ grid_threads grid tile_block /\
         trilinear_forward_kernel features points out tile_block (fst bt) (snd bt)
           = Some [((n, f), v)] /\
         (forall bt', bt' ∈ grid_threads grid tile_block -> bt' <> bt ->
            exists l,
              trilinear_forward_kernel features points out tile_block (fst bt') (snd bt')
                = Some l /\ stores_to (n, f) l = []) /\
         stores_to (n, f) log = [((n, f), v)]).

(** ** Shapes that do not match the data model *)

Definition shape_mismatch_forward {T} (features : Tensor3 T) (points : Tensor2 T) : Prop :=
  t3_size1 features <> 8 \/ t2_size1 points <> 3 \/
  t2_size0 points <> t3_size0 features.

Definition shape_mismatch_backward {T}
    (grad : Tensor2 T) (features : Tensor3 T) (points : Tensor2 T) : Prop :=
  shape_mismatch_forward features points \/
  t2_size0 grad <> t3_size0 features \/ t2_size1 grad <> t3_size2 features.

(** Features with 9 corners per cube, Points with 4 columns and an
    UpstreamGradient with 2 columns, for one cube with one channel. *)
Definition wide_features : Tensor3 Q := MkTensor3 1 9 1 (fun _ c _ => inject_Z c).
Definition wide_points : Tensor2 Q := MkTensor2 1 4 (fun _ _ => 1%Q).
Definition wide_grad : Tensor2 Q := MkTensor2 1 2 (fun _ _ => 1%Q).

(** Features with 4 corners per cube. *)
Definition narrow_features : Tensor3 Q := MkTensor3 1 4 1 (fun _ c _ => inject_Z c).

(** Features of 2^32 cubes with one channel, their points, each at the corner
    (u, v, w) = (0, 0, 0), and an upstream gradient, in the shapes of the data
    model. *)
Definition huge_features {T} `{Scalar T} : Tensor3 T :=
  MkTensor3 (2 ^ 32) 8 1 (fun _ _ _ => s_lit 1).
Definition huge_points {T} `{Scalar T} : Tensor2 T :=
  MkTensor2 (2 ^ 32) 3 (fun _ _ => s_lit (-1)).
Definition huge_grad {T} `{Scalar T} : Tensor2 T :=
  MkTensor2 (2 ^ 32) 1 (fun _ _ => s_lit 1).

(** Two inputs of two cubes that agree on cube 0 only. *)
Definition pair_features (x : Q) : Tensor3 Q :=
  MkTensor3 2 8 1 (fun n c _ => if (n =? 0)%Z then inject_Z c else x).
Definition pair_points (x : Q) : Tensor2 Q :=
  MkTensor2 2 3 (fun n _ => if (n =? 0)%Z then 0%Q else x).
Definition pair_grad (x : Q) : Tensor2 Q :=
  MkTensor2 2 1 (fun n _ => if (n =? 0)%Z then 2%Q else x).

(** ** Comparing two calls *)

Definition same_shape3 {T} (x y : Tensor3 T) : Prop :=
  t3_size0 x = t3_size0 y /\ t3_size1 x = t3_size1 y /\ t3_size2 x = t3_size2 y.
Definition same_shape2 {T} (x y : Tensor2 T) : Prop :=
  t2_size0 x = t2_size0 y /\ t2_size1 x = t2_size1 y.

(** Two tensors hold the same data for cube m. *)
Definition agree_on_cube3 {T} (m : Z) (x y : Tensor3 T) : Prop :=
  forall c f, t3_data x m c f = t3_data y m c f.
Definition agree_on_cube2 {T} (m : Z) (x y : Tensor2 T) : Prop :=
  forall j, t2_data x m j = t2_data y m j.

(** Two calls end the same way, with related tensors when they return. *)
Inductive outcome_rel {A : Type} (R : A -> A -> Prop) : outcome A -> outcome A -> Prop :=
| rel_Returned a b : R a b -> outcome_rel R (Returned a) (Returned b)
| rel_Threw : outcome_rel R Threw Threw
| rel_Undefined : outcome_rel R Undefined Undefined.

(** Two returned tensors have one shape and the same content for cube m. *)
Definition same_row2 {T} (m : Z) (x y : Buffer2 T) : Prop :=
  b2_size0 x = b2_size0 y /\ b2_size1 x = b2_size1 y /\
  forall f, b2_cells x !! (m, f) = b2_cells y !! (m, f).
Definition same_row3 {T} (m : Z) (x y : Buffer3 T) : Prop :=
  b3_size0 x = b3_size0 y /\ b3_size1 x = b3_size1 y /\ b3_size2 x = b3_size2 y /\
  forall c f, b3_cells x !! (m, c, f) = b3_cells y !! (m, c, f).

(** ** Exact arithmetic: operations on real tensors *)

(** The features with every corner of cube m multiplied by k. *)
Definition scale_cube (k : R) (m : Z) (features : Tensor3 R) : Tensor3 R :=
  MkTensor3 (t3_size0 features) (t3_size1 features) (t3_size2 features)
    (fun n c f => if decide (n = m) then (k * t3_data features n c f)%R
                  else t3_data features n c f).

(** The combination k1 * x + k2 * y of two feature tensors, in the shape of x. *)
Definition combine_features (k1 : R) (x : Tensor3 R) (k2 : R) (y : Tensor3 R)
    : Tensor3 R :=
  MkTensor3 (t3_size0 x) (t3_size1 x) (t3_size2 x)
    (fun n c f => (k1 * t3_data x n c f + k2 * t3_data y n c f)%R).

(** The features with the one element (n, c, f) replaced by x. *)
Definition set_feature (features : Tensor3 R) (n c f : Z) (x : R) : Tensor3 R :=
  MkTensor3 (t3_size0 features) (t3_size1 features) (t3_size2 features)
    (fun n' c' f' => if decide (n' = n /\ c' = c /\ f' = f) then x
                     else t3_data features n' c' f').

(** Features of N cubes with F channels that are 1 at the corner c of every
    cube and 0 at its seven other corners.  What the forward call returns
    on them is the weight it puts on the corner c. *)
Definition corner_indicator (N F c : Z) : Tensor3 R :=
  MkTensor3 N 8 F (fun _ c' _ => if decide (c' = c) then 1%R else 0%R).

(** The sum of g over the indices 0, ..., n - 1. *)
Definition sumZ (n : Z) (g : Z -> R) : R := foldr Rplus 0%R (g <$> seqZ 0 n).

(** The content of a cell as a number; an absent cell counts as 0. *)
Definition value2 (r : outcome (Buffer2 R)) (n f : Z) : R := default 0%R (cell2 r n f).
Definition value3 (r : outcome (Buffer3 R)) (n c f : Z) : R := default 0%R (cell3 r n c f).

(** The weight of corner c for the point of cube n. *)
Definition weight_of (points : Tensor2 R) (n c : Z) : R :=
  default 0%R
    (corner_weights (t2_data points n 0) (t2_data points n 1) (t2_data points n 2)
       !! Z.to_nat c).

(** The scalar sum(g * Output) of the gradient check. *)
Definition weighted_output (grad : Tensor2 R) (features : Tensor3 R) (points : Tensor2 R)
    : R :=
  sumZ (t3_size0 features) (fun n =>
    sumZ (t3_size2 features) (fun f =>
      (t2_data grad n f * value2 (trilinear_forward_cu features points) n f)%R)).

(** A cube over the reals whose corner c carries the feature c, a query
    point at the corner (u, v, w) = (1, 0, 1), and an upstream gradient. *)
Definition ramp_features : Tensor3 R := MkTensor3 1 8 1 (fun _ c _ => IZR c).
Definition corner_points : Tensor2 R :=
  MkTensor2 1 3 (fun _ j => if (j =? 1)%Z then (-1)%R else 1%R).
Definition unit_grad : Tensor2 R := MkTensor2 1 1 (fun _ _ => 1%R).

(** ** Inputs and operations of the further properties *)

(** Two tensors hold the same data in the first [rows] rows, [corners]
    corners and [cols] columns. *)
Definition agree_within3 {T} (rows corners cols : Z) (x y : Tensor3 T) : Prop :=
  forall n c f, 0 <= n < rows -> 0 <= c < corners -> 0 <= f < cols ->
    t3_data x n c f = t3_data y n c f.
Definition agree_within2 {T} (rows cols : Z) (x y : Tensor2 T) : Prop :=
  forall n j, 0 <= n < rows -> 0 <= j < cols -> t2_data x n j = t2_data y n j.

(** The first 8 corners of [wide_features], the first 3 columns of
    [wide_points] and the first column of [wide_grad]. *)
Definition cut_features : Tensor3 Q := MkTensor3 1 8 1 (fun _ c _ => inject_Z c).
Definition cut_points : Tensor2 Q := MkTensor2 1 3 (fun _ _ => 1%Q).
Definition cut_grad : Tensor2 Q := MkTensor2 1 1 (fun _ _ => 1%Q).

(** Features of no cube with 5 channels, and a tensor of no row and no
    column for their points and upstream gradient. *)
Definition empty_features : Tensor3 Q := MkTensor3 0 8 5 (fun _ _ _ => 0%Q).
Definition no_points : Tensor2 Q := MkTensor2 0 0 (fun _ _ => 0%Q).

(** Features of 2^32 + 1 cubes with one channel, their points and an
    upstream gradient, in the shapes of the data model: the [int] of the
    wrappers holds N = 1. *)
Definition wrapped_features : Tensor3 Q := MkTensor3 (2 ^ 32 + 1) 8 1 (fun _ _ _ => 1%Q).
Definition wrapped_points : Tensor2 Q := MkTensor2 (2 ^ 32 + 1) 3 (fun _ _ => 0%Q).
Definition wrapped_grad : Tensor2 Q := MkTensor2 (2 ^ 32 + 1) 1 (fun _ _ => 1%Q).

(** Linear interpolation between x and y at the parameter t. *)
Definition lerp (t x y : R) : R := ((1 - t) * x + t * y)%R.

(** The points with the coordinate j of the point of cube n replaced by x. *)
Definition set_point (points : Tensor2 R) (n j : Z) (x : R) : Tensor2 R :=
  MkTensor2 (t2_size0 points) (t2_size1 points)
    (fun n' j' => if decide (n' = n /\ j' = j) then x else t2_data points n' j').

(** The points with the coordinate j of every point negated: the query
    points reflected in the middle plane of the axis j. *)
Definition reflect_points (j : Z) (points : Tensor2 R) : Tensor2 R :=
  MkTensor2 (t2_size0 points) (t2_size1 points)
    (fun n j' => if decide (j' = j) then (- t2_data points n j')%R
                 else t2_data points n j').

(** The features with each corner c exchanged with the corner c xor bit. *)
Definition swap_corners (bit : Z) (features : Tensor3 R) : Tensor3 R :=
  MkTensor3 (t3_size0 features) (t3_size1 features) (t3_size2 features)
    (fun n c f => t3_data features n (Z.lxor c bit) f).

(** The combination k1 * g1 + k2 * g2 of two upstream gradients, in the
    shape of g1. *)
Definition combine_grad (k1 : R) (g1 : Tensor2 R) (k2 : R) (g2 : Tensor2 R) : Tensor2 R :=
  MkTensor2 (t2_size0 g1) (t2_size1 g1)
    (fun n f => (k1 * t2_data g1 n f + k2 * t2_data g2 n f)%R).

(** A cube over the reals whose corners all carry the feature 3. *)
Definition flat_features : Tensor3 R := MkTensor3 1 8 1 (fun _ _ _ => 3%R).

(** * Properties *)

(** ** Machine integers *)

Section IntFacts.

Lemma to_int_range z : - 2 ^ 31 <= to_int z < 2 ^ 31.
Proof. unfold to_int. pose proof (Z.mod_pos_bound (z + 2 ^ 31) (2 ^ 32)). lia. Qed.

Lemma to_int_id z : fits_int z -> to_int z = z.
Proof.
  unfold fits_int, INT_MAX, to_int. intros Hz.
  rewrite Z.mod_small by lia. lia.
Qed.

Lemma to_uint_id z : 0 <= z < 2 ^ 32 -> to_uint z = z.
Proof. intros Hz. unfold to_uint. now rewrite Z.mod_small. Qed.

Lemma to_size_t_id z : 0 <= z < 2 ^ 64 -> to_size_t z = z.
Proof. intros Hz. unfold to_size_t. now rewrite Z.mod_small. Qed.

(** A negative [int] becomes a [size_t] above every extent. *)
Lemma to_size_t_neg z : - 2 ^ 31 <= z < 0 -> to_size_t z = z + 2 ^ 64.
Proof.
  intros Hz. unfold to_size_t.
  rewrite <- (Z.mod_add z 1 (2 ^ 64)) by lia.
  rewrite Z.mod_small; lia.
Qed.

(** The guard [n < size] of the kernels, for an [int] n and a [size_t] size. *)
Lemma guard_spec z size :
  is_extent size ->
  (to_size_t (to_int z) <? size) = true <-> 0 <= to_int z < size.
Proof.
  intros Hs. unfold is_extent in Hs. pose proof (to_int_range z) as Hr.
  rewrite Z.ltb_lt. destruct (Z_lt_ge_dec (to_int z) 0) as [Hneg|Hpos].
  - rewrite to_size_t_neg by lia. lia.
  - rewrite to_size_t_id by lia. lia.
Qed.

Lemma blocks_for_fits N : fits_int N -> blocks_for N 16 = (N + 15) / 16.
Proof.
  unfold fits_int, INT_MAX, blocks_for. intros HN.
  rewrite (to_uint_id N) by lia.
  rewrite (to_uint_id (N + 16)) by lia.
  rewrite to_uint_id by lia. f_equal. lia.
Qed.

(** Inside the grid of an extent that fits, the index of a thread is
    computed without wrap-around. *)
Lemma thread_index_fits N b t :
  fits_int N -> 0 <= b < (N + 15) / 16 -> 0 <= t < 16 ->
  to_int (to_uint (to_uint (16 * b) + t)) = 16 * b + t /\
  0 <= 16 * b + t <= INT_MAX.
Proof.
  unfold fits_int, INT_MAX. intros HN Hb Ht.
  assert (16 * b + t < 2 ^ 31) as Hlt.
  { assert (16 * ((N + 15) / 16) <= N + 15) by (apply Z.mul_div_le; lia). lia. }
  rewrite (to_uint_id (16 * b)) by lia.
  rewrite to_uint_id by lia.
  split; [|lia]. apply to_int_id. unfold fits_int, INT_MAX. lia.
Qed.

End IntFacts.

(** ** Grids, launches and stores *)

Section LaunchFacts.

Lemma elem_of_block_indices d b :
  b ∈ block_indices d <->
  0 <= dx b < dx d /\ 0 <= dy b < dy d /\ 0 <= dz b < dz d.
Proof.
  unfold block_indices. rewrite list_elem_of_bind. split.
  - intros (bx & Hb & Hx). apply list_elem_of_bind in Hb as (by' & Hb & Hy).
    apply list_elem_of_bind in Hb as (bz & Hb & Hz).
    apply list_elem_of_singleton in Hb as ->. simpl.
    apply elem_of_seqZ in Hx, Hy, Hz. lia.
  - intros (Hx & Hy & Hz). exists (dx b). split; [|apply elem_of_seqZ; lia].
    apply list_elem_of_bind. exists (dy b). split; [|apply elem_of_seqZ; lia].
    apply list_elem_of_bind. exists (dz b). split; [|apply elem_of_seqZ; lia].
    destruct b. simpl. apply list_elem_of_singleton. reflexivity.
Qed.

Lemma NoDup_block_indices d : NoDup (block_indices d).
Proof.
  unfold block_indices.
  apply NoDup_bind; [| |apply NoDup_seqZ].
  - intros x1 x2 b _ _ H1 H2.
    apply list_elem_of_bind in H1 as (y1 & H1 & _).
    apply list_elem_of_bind in H1 as (z1 & H1 & _).
    apply list_elem_of_bind in H2 as (y2 & H2 & _).
    apply list_elem_of_bind in H2 as (z2 & H2 & _).
    apply list_elem_of_singleton in H1, H2. congruence.
  - intros bx _. apply NoDup_bind; [| |apply NoDup_seqZ].
    + intros y1 y2 b _ _ H1 H2.
      apply list_elem_of_bind in H1 as (z1 & H1 & _).
      apply list_elem_of_bind in H2 as (z2 & H2 & _).
      apply list_elem_of_singleton in H1, H2. congruence.
    + intros by' _. apply NoDup_bind; [| |apply NoDup_seqZ].
      * intros z1 z2 b _ _ H1 H2.
        apply list_elem_of_singleton in H1, H2. congruence.
      * intros bz _. apply NoDup_singleton.
Qed.

Lemma elem_of_grid_threads nb nt b t :
  (b, t) ∈ grid_threads nb nt <-> b ∈ block_indices nb /\ t ∈ block_indices nt.
Proof.
  unfold grid_threads. rewrite list_elem_of_bind. split.
  - intros (b' & Hbt & Hb). apply list_elem_of_bind in Hbt as (t' & Hbt & Ht).
    apply list_elem_of_singleton in Hbt. now inversion Hbt; subst.
  - intros (Hb & Ht). exists b. split; [|exact Hb].
    apply list_elem_of_bind. exists t. split; [|exact Ht].
    apply list_elem_of_singleton. reflexivity.
Qed.

Lemma NoDup_grid_threads nb nt : NoDup (grid_threads nb nt).
Proof.
  unfold grid_threads.
  apply NoDup_bind; [| |apply NoDup_block_indices].
  - intros b1 b2 bt _ _ H1 H2.
    apply list_elem_of_bind in H1 as (t1 & H1 & _).
    apply list_elem_of_bind in H2 as (t2 & H2 & _).
    apply list_elem_of_singleton in H1, H2. congruence.
  - intros b _. apply NoDup_bind; [| |apply NoDup_block_indices].
    + intros t1 t2 bt _ _ H1 H2.
      apply list_elem_of_singleton in H1, H2. congruence.
    + intros t _. apply NoDup_singleton.
Qed.

(** A launch whose threads all succeed yields their stores in grid order. *)
Lemma launch_all_Some {W} (kernel : dim3 -> dim3 -> dim3 -> option (list W))
    (g : dim3 * dim3 -> list W) nb nt :
  (forall b t, (b, t) ∈ grid_threads nb nt -> kernel nt b t = Some (g (b, t))) ->
  launch kernel nb nt = Some (concat (g <$> grid_threads nb nt)).
Proof.
  intros Hk. unfold launch, run_threads.
  assert (mapM (fun bt => kernel nt (fst bt) (snd bt)) (grid_threads nb nt)
          = Some (g <$> grid_threads nb nt)) as ->; [|reflexivity].
  apply mapM_Some_2.
  induction (grid_threads nb nt) as [|[b t] l IH]; [constructor|].
  rewrite fmap_cons. constructor.
  - simpl. apply Hk. apply list_elem_of_here.
  - apply IH. intros b' t' Hin. apply Hk. now apply list_elem_of_further.
Qed.

(** A launch with a failing thread is undefined. *)
Lemma launch_None {W} (kernel : dim3 -> dim3 -> dim3 -> option (list W)) nb nt b t :
  (b, t) ∈ grid_threads nb nt -> kernel nt b t = None ->
  launch kernel nb nt = None.
Proof.
  intros Hin Hk. unfold launch, run_threads.
  assert (mapM (fun bt => kernel nt (fst bt) (snd bt)) (grid_threads nb nt) = None)
    as ->; [|reflexivity].
  apply mapM_None_2, Exists_exists. exists (b, t). split; assumption.
Qed.

(** When one element of a duplicate-free list alone contributes the entries
    that satisfy [P], they are that element's. *)
Lemma filter_concat_unique {A X} (P : X -> Prop) `{forall x, Decision (P x)}
    (g : A -> list X) (l : list A) (a0 : A) :
  NoDup l -> a0 ∈ l ->
  (forall a, a ∈ l -> a <> a0 -> filter P (g a) = []) ->
  filter P (concat (g <$> l)) = filter P (g a0).
Proof.
  induction 1 as [|a l Hnotin Hnd IH]; intros Hin Hothers.
  - inversion Hin.
  - rewrite fmap_cons. simpl. rewrite filter_app.
    apply elem_of_cons in Hin as [->|Hin].
    + assert (filter P (concat (g <$> l)) = []) as ->.
      { clear IH Hnd. induction l as [|a' l IHl]; [reflexivity|].
        rewrite fmap_cons. simpl. rewrite filter_app.
        rewrite Hothers, IHl.
        - reflexivity.
        - intros Hin'. apply Hnotin. now apply list_elem_of_further.
        - intros a1 Hin1 Hne. apply Hothers; [|exact Hne].
          apply elem_of_cons in Hin1 as [->|Hin1].
          + apply list_elem_of_here.
          + now do 2 apply list_elem_of_further.
        - apply list_elem_of_further, list_elem_of_here.
        - intros ->. apply Hnotin, list_elem_of_here. }
      apply app_nil_r.
    + rewrite Hothers, IH.
      * reflexivity.
      * exact Hin.
      * intros a1 Hin1. apply Hothers. now apply list_elem_of_further.
      * apply list_elem_of_here.
      * intros ->. contradiction.
Qed.

End LaunchFacts.

Section StoreFacts.

Context {K T : Type} `{Countable K}.

Lemma stores_to_app (k : K) (l1 l2 : list (K * T)) :
  stores_to k (l1 ++ l2) = stores_to k l1 ++ stores_to k l2.
Proof. unfold stores_to. apply filter_app. Qed.

(** A cell holds the value of the last store that went to it. *)
Lemma apply_stores_lookup (log : list (K * T)) (m : gmap K T) (k : K) :
  apply_stores log m !! k =
  match last (stores_to k log) with
  | Some kv => Some (snd kv)
  | None => m !! k
  end.
Proof.
  induction log as [|[k' v] log IH] using rev_ind; [reflexivity|].
  unfold apply_stores in *. rewrite foldl_app. simpl.
  rewrite stores_to_app. unfold stores_to at 2.
  destruct (decide (k' = k)) as [->|Hne].
  - rewrite filter_cons_True by reflexivity. rewrite filter_nil.
    rewrite last_snoc. simpl. apply lookup_insert_eq.
  - rewrite filter_cons_False by (simpl; congruence). rewrite filter_nil.
    rewrite app_nil_r. rewrite lookup_insert_ne by exact Hne. exact IH.
Qed.

Lemma apply_stores_single (log : list (K * T)) (m : gmap K T) (k : K) (v : T) :
  stores_to k log = [(k, v)] -> apply_stores log m !! k = Some v.
Proof. intros Hs. rewrite apply_stores_lookup, Hs. reflexivity. Qed.

Lemma apply_stores_none (log : list (K * T)) (m : gmap K T) (k : K) :
  stores_to k log = [] -> apply_stores log m !! k = m !! k.
Proof. intros Hs. rewrite apply_stores_lookup, Hs. reflexivity. Qed.

End StoreFacts.

(** ** The tiling of the index space *)

Section Tiling.

Context {W : Type}.
Variable kernel : dim3 -> dim3 -> dim3 -> option (list W).
Variable stores : Z -> Z -> list W.
Variables N F : Z.
Hypothesis HN : fits_int N.
Hypothesis HF : fits_int F.

(** Every thread of the grid does the work of its index pair, or none when
    the pair lies outside the extents. *)
Hypothesis kernel_tiled : forall b t,
  (b, t) ∈ grid_threads (tile_grid N F) tile_block ->
  kernel tile_block b t =
  Some (if decide (16 * dx b + dx t < N /\ 16 * dy b + dy t < F)
        then stores (16 * dx b + dx t) (16 * dy b + dy t) else []).

Lemma launch_tiled :
  launch kernel (tile_grid N F) tile_block = Some (tiled_log stores N F).
Proof. unfold tiled_log. apply launch_all_Some. intros b t Hin. now apply kernel_tiled. Qed.

Lemma tile_grid_elem b t :
  (b, t) ∈ grid_threads (tile_grid N F) tile_block <->
  (0 <= dx b < (N + 15) / 16 /\ 0 <= dy b < (F + 15) / 16 /\ dz b = 0) /\
  (0 <= dx t < 16 /\ 0 <= dy t < 16 /\ dz t = 0).
Proof.
  rewrite elem_of_grid_threads, !elem_of_block_indices.
  unfold tile_grid, tile_block. simpl.
  rewrite !blocks_for_fits by assumption. lia.
Qed.

Lemma owner_in_grid n f :
  0 <= n < N -> 0 <= f < F ->
  owner n f ∈ grid_threads (tile_grid N F) tile_block.
Proof.
  intros Hn Hf. unfold owner. apply tile_grid_elem. simpl.
  pose proof (Z.mod_pos_bound n 16). pose proof (Z.mod_pos_bound f 16).
  assert (n / 16 < (N + 15) / 16).
  { apply Z.div_lt_upper_bound; [lia|].
    assert (N + 15 < 16 * ((N + 15) / 16) + 16).
    { pose proof (Z.mod_pos_bound (N + 15) 16).
      rewrite (Z.div_mod (N + 15) 16) at 1 by lia. lia. }
    lia. }
  assert (f / 16 < (F + 15) / 16).
  { apply Z.div_lt_upper_bound; [lia|].
    assert (F + 15 < 16 * ((F + 15) / 16) + 16).
    { pose proof (Z.mod_pos_bound (F + 15) 16).
      rewrite (Z.div_mod (F + 15) 16) at 1 by lia. lia. }
    lia. }
  assert (0 <= n / 16) by (apply Z.div_pos; lia).
  assert (0 <= f / 16) by (apply Z.div_pos; lia).
  lia.
Qed.

Lemma owner_unique b t n f :
  (b, t) ∈ grid_threads (tile_grid N F) tile_block ->
  16 * dx b + dx t = n -> 16 * dy b + dy t = f ->
  (b, t) = owner n f.
Proof.
  intros Hin Hn Hf. apply tile_grid_elem in Hin as ((Hbx & Hby & Hbz) & (Htx & Hty & Htz)).
  unfold owner. destruct b as [bx by' bz], t as [tx ty tz]. simpl in *. subst.
  assert ((16 * bx + tx) / 16 = bx /\ (16 * bx + tx) mod 16 = tx) as [-> ->].
  { rewrite (Z.mul_comm 16 bx), Z.add_comm.
    rewrite Z.div_add, Z.mod_add by lia.
    rewrite Z.div_small, Z.mod_small by lia. lia. }
  assert ((16 * by' + ty) / 16 = by' /\ (16 * by' + ty) mod 16 = ty) as [-> ->].
  { rewrite (Z.mul_comm 16 by'), Z.add_comm.
    rewrite Z.div_add, Z.mod_add by lia.
    rewrite Z.div_small, Z.mod_small by lia. lia. }
  reflexivity.
Qed.

(** The entries of the log that satisfy [P] are those of the one index pair
    whose work produces any. *)
Lemma tiled_log_filter (P : W -> Prop) `{forall x, Decision (P x)} n f :
  0 <= n < N -> 0 <= f < F ->
  (forall n' f', 0 <= n' < N -> 0 <= f' < F -> (n', f') <> (n, f) ->
                 filter P (stores n' f') = []) ->
  filter P (tiled_log stores N F) = filter P (stores n f).
Proof.
  intros Hn Hf Hothers. unfold tiled_log.
  rewrite (filter_concat_unique P _ _ (owner n f)).
  - unfold owner. simpl.
    rewrite <- !Z.div_mod by lia.
    rewrite decide_True by lia. reflexivity.
  - apply NoDup_grid_threads.
  - now apply owner_in_grid.
  - intros [b t] Hin Hne. simpl.
    destruct (decide _) as [[Hn' Hf']|]; [|reflexivity].
    apply tile_grid_elem in Hin as Hr.
    apply Hothers; [lia|lia|].
    intros Heq. inversion Heq as [[Hn1 Hf1]]. apply Hne.
    now apply owner_unique.
Qed.

End Tiling.

(** ** One unit of work *)

Section ThreadFacts.

Context {T : Type} `{Scalar T}.

Lemma read2_in (t : Tensor2 T) i j :
  0 <= i < t2_size0 t -> 0 <= j < t2_size1 t -> read2 t i j = Some (t2_data t i j).
Proof.
  intros Hi Hj. unfold read2, in_extent.
  destruct (Z.leb_spec 0 i), (Z.ltb_spec i (t2_size0 t)),
           (Z.leb_spec 0 j), (Z.ltb_spec j (t2_size1 t)); try lia. reflexivity.
Qed.

Lemma read3_in (t : Tensor3 T) i j k :
  0 <= i < t3_size0 t -> 0 <= j < t3_size1 t -> 0 <= k < t3_size2 t ->
  read3 t i j k = Some (t3_data t i j k).
Proof.
  intros Hi Hj Hk. unfold read3, in_extent.
  destruct (Z.leb_spec 0 i), (Z.ltb_spec i (t3_size0 t)),
           (Z.leb_spec 0 j), (Z.ltb_spec j (t3_size1 t)),
           (Z.leb_spec 0 k), (Z.ltb_spec k (t3_size2 t)); try lia. reflexivity.
Qed.

Lemma store2_in (b : Buffer2 T) i j v :
  0 <= i < b2_size0 b -> 0 <= j < b2_size1 b -> store2 b i j v = Some [((i, j), v)].
Proof.
  intros Hi Hj. unfold store2, in_extent.
  destruct (Z.leb_spec 0 i), (Z.ltb_spec i (b2_size0 b)),
           (Z.leb_spec 0 j), (Z.ltb_spec j (b2_size1 b)); try lia. reflexivity.
Qed.

Lemma store3_in (b : Buffer3 T) i j k v :
  0 <= i < b3_size0 b -> 0 <= j < b3_size1 b -> 0 <= k < b3_size2 b ->
  store3 b i j k v = Some [((i, j, k), v)].
Proof.
  intros Hi Hj Hk. unfold store3, in_extent.
  destruct (Z.leb_spec 0 i), (Z.ltb_spec i (b3_size0 b)),
           (Z.leb_spec 0 j), (Z.ltb_spec j (b3_size1 b)),
           (Z.leb_spec 0 k), (Z.ltb_spec k (b3_size2 b)); try lia. reflexivity.
Qed.

(** The guard of both kernels, for extents of a tensor. *)
Lemma guard_true zn zf N F :
  is_extent N -> is_extent F ->
  0 <= to_int zn < N -> 0 <= to_int zf < F ->
  (to_size_t (to_int zn) <? N) && (to_size_t (to_int zf) <? F) = true /\
  to_size_t (to_int zn) = to_int zn /\ to_size_t (to_int zf) = to_int zf.
Proof.
  intros HN HF Hn Hf. unfold is_extent in *.
  rewrite !to_size_t_id by lia. repeat split.
  apply andb_true_intro. split; apply Z.ltb_lt; lia.
Qed.

Lemma guard_false zn zf N F :
  is_extent N -> is_extent F ->
  ~ (0 <= to_int zn < N /\ 0 <= to_int zf < F) ->
  (to_size_t (to_int zn) <? N) && (to_size_t (to_int zf) <? F) = false.
Proof.
  intros HN HF Hout. apply andb_false_iff.
  destruct (to_size_t (to_int zn) <? N) eqn:En; [|now left].
  destruct (to_size_t (to_int zf) <? F) eqn:Ef; [|now right].
  apply guard_spec in En, Ef; try assumption. lia.
Qed.

(** A thread whose index pair passes the guard stores the forward value to
    its own cell, and only that. *)
Lemma forward_kernel_inside features points output bd b t :
  is_extent (t3_size0 features) -> is_extent (t3_size2 features) ->
  forward_shapes_suffice features points ->
  b2_size0 output = t3_size0 features -> b2_size1 output = t3_size2 features ->
  let n := to_int (to_uint (to_uint (dx bd * dx b) + dx t)) in
  let f := to_int (to_uint (to_uint (dy bd * dy b) + dy t)) in
  0 <= n < t3_size0 features -> 0 <= f < t3_size2 features ->
  trilinear_forward_kernel features points output bd b t =
  Some [((n, f), forward_value features points n f)].
Proof.
  intros HN HF (Hc & Hp0 & Hp1) Ho0 Ho1 n f Hn Hf.
  destruct (guard_true _ _ _ _ HN HF Hn Hf) as (Hg & Hsn & Hsf).
  unfold trilinear_forward_kernel. cbv zeta. fold n f in Hg, Hsn, Hsf |- *.
  rewrite Hg, Hsn, Hsf.
  rewrite !read2_in by lia. simpl.
  rewrite !read3_in by lia. simpl.
  rewrite store2_in by lia. reflexivity.
Qed.

(** A thread whose index pair fails the guard does nothing. *)
Lemma forward_kernel_outside features points output bd b t :
  is_extent (t3_size0 features) -> is_extent (t3_size2 features) ->
  let n := to_int (to_uint (to_uint (dx bd * dx b) + dx t)) in
  let f := to_int (to_uint (to_uint (dy bd * dy b) + dy t)) in
  ~ (0 <= n < t3_size0 features /\ 0 <= f < t3_size2 features) ->
  trilinear_forward_kernel features points output bd b t = Some [].
Proof.
  intros HN HF n f Hout.
  pose proof (guard_false _ _ _ _ HN HF Hout) as Hg.
  unfold trilinear_forward_kernel. cbv zeta. now rewrite Hg.
Qed.

Lemma backward_kernel_inside features points grad dL_dFeatures bd b t :
  is_extent (t3_size0 features) -> is_extent (t3_size2 features) ->
  backward_shapes_suffice grad features points ->
  b3_size0 dL_dFeatures = t3_size0 features -> b3_size1 dL_dFeatures = 8 ->
  b3_size2 dL_dFeatures = t3_size2 features ->
  let n := to_int (to_uint (to_uint (dx bd * dx b) + dx t)) in
  let f := to_int (to_uint (to_uint (dy bd * dy b) + dy t)) in
  0 <= n < t3_size0 features -> 0 <= f < t3_size2 features ->
  trilinear_backward_kernel features points grad dL_dFeatures bd b t =
  Some (backward_stores points grad n f).
Proof.
  intros HN HF (Hp0 & Hp1 & Hg0 & Hg1) Ho0 Ho1 Ho2 n f Hn Hf.
  destruct (guard_true _ _ _ _ HN HF Hn Hf) as (Hg & Hsn & Hsf).
  unfold trilinear_backward_kernel. cbv zeta. fold n f in Hg, Hsn, Hsf |- *.
  rewrite Hg, Hsn, Hsf.
  rewrite !read2_in by lia. simpl.
  rewrite !store3_in by lia. reflexivity.
Qed.

Lemma backward_kernel_outside features points grad dL_dFeatures bd b t :
  is_extent (t3_size0 features) -> is_extent (t3_size2 features) ->
  let n := to_int (to_uint (to_uint (dx bd * dx b) + dx t)) in
  let f := to_int (to_uint (to_uint (dy bd * dy b) + dy t)) in
  ~ (0 <= n < t3_size0 features /\ 0 <= f < t3_size2 features) ->
  trilinear_backward_kernel features points grad dL_dFeatures bd b t = Some [].
Proof.
  intros HN HF n f Hout.
  pose proof (guard_false _ _ _ _ HN HF Hout) as Hg.
  unfold trilinear_backward_kernel. cbv zeta. now rewrite Hg.
Qed.

End ThreadFacts.

(** ** The host wrappers on shapes that suffice *)

Section WrapperFacts.

Context {T : Type} `{Scalar T}.

Lemma fits_int_extent z : fits_int z -> is_extent z.
Proof. unfold fits_int, INT_MAX, is_extent. lia. Qed.

(** Inside the grid every thread does the work of its index pair. *)
Lemma forward_kernel_tiled features points b t :
  fits_int (t3_size0 features) -> fits_int (t3_size2 features) ->
  forward_shapes_suffice features points ->
  (b, t) ∈ grid_threads (tile_grid (t3_size0 features) (t3_size2 features)) tile_block ->
  trilinear_forward_kernel features points
    (MkBuffer2 (t3_size0 features) (t3_size2 features) ∅) tile_block b t =
  Some (if decide (16 * dx b + dx t < t3_size0 features /\
                   16 * dy b + dy t < t3_size2 features)
        then forward_stores features points (16 * dx b + dx t) (16 * dy b + dy t)
        else []).
Proof.
  intros HN HF Hshape Hin.
  apply tile_grid_elem in Hin as ((Hbx & Hby & _) & (Htx & Hty & _)); try assumption.
  destruct (thread_index_fits _ _ _ HN Hbx Htx) as [En Hnr].
  destruct (thread_index_fits _ _ _ HF Hby Hty) as [Ef Hfr].
  destruct (decide _) as [[Hn Hf]|Hout].
  - rewrite (forward_kernel_inside features points); simpl dx; simpl dy;
      rewrite ?En, ?Ef; auto using fits_int_extent; lia.
  - apply forward_kernel_outside; simpl dx; simpl dy;
      rewrite ?En, ?Ef; auto using fits_int_extent; lia.
Qed.

Lemma forward_launch_tiled features points :
  fits_int (t3_size0 features) -> fits_int (t3_size2 features) ->
  forward_shapes_suffice features points ->
  launch (trilinear_forward_kernel features points
            (MkBuffer2 (t3_size0 features) (t3_size2 features) ∅))
         (tile_grid (t3_size0 features) (t3_size2 features)) tile_block =
  Some (tiled_log (forward_stores features points)
          (t3_size0 features) (t3_size2 features)).
Proof.
  intros HN HF Hshape. apply launch_tiled.
  intros b t Hin. now apply forward_kernel_tiled.
Qed.

Lemma torch_empty2_fits N F :
  fits_int N -> fits_int F -> torch_empty2 (T:=T) N F = Some (MkBuffer2 N F ∅).
Proof.
  intros HN HF. unfold torch_empty2, fits_int in *.
  destruct (Z.leb_spec 0 N), (Z.leb_spec 0 F); try lia. reflexivity.
Qed.

Lemma forward_cu_returns features points :
  fits_int (t3_size0 features) -> fits_int (t3_size2 features) ->
  forward_shapes_suffice features points ->
  trilinear_forward_cu features points =
  Returned (MkBuffer2 (t3_size0 features) (t3_size2 features)
              (apply_stores (tiled_log (forward_stores features points)
                               (t3_size0 features) (t3_size2 features)) ∅)).
Proof.
  intros HN HF Hshape. unfold trilinear_forward_cu.
  rewrite (to_int_id _ HN), (to_int_id _ HF).
  rewrite (torch_empty2_fits _ _ HN HF).
  cbv zeta. simpl dx. simpl dy.
  change (Dim3 (blocks_for (t3_size0 features) 16) (blocks_for (t3_size2 features) 16) 1)
    with (tile_grid (t3_size0 features) (t3_size2 features)).
  change (Dim3 16 16 1) with tile_block.
  now rewrite (forward_launch_tiled _ _ HN HF Hshape).
Qed.

Lemma backward_kernel_tiled grad features points b t :
  fits_int (t3_size0 features) -> fits_int (t3_size2 features) ->
  backward_shapes_suffice grad features points ->
  (b, t) ∈ grid_threads (tile_grid (t3_size0 features) (t3_size2 features)) tile_block ->
  trilinear_backward_kernel features points grad
    (MkBuffer3 (t3_size0 features) 8 (t3_size2 features) ∅) tile_block b t =
  Some (if decide (16 * dx b + dx t < t3_size0 features /\
                   16 * dy b + dy t < t3_size2 features)
        then backward_stores points grad (16 * dx b + dx t) (16 * dy b + dy t)
        else []).
Proof.
  intros HN HF Hshape Hin.
  apply tile_grid_elem in Hin as ((Hbx & Hby & _) & (Htx & Hty & _)); try assumption.
  destruct (thread_index_fits _ _ _ HN Hbx Htx) as [En Hnr].
  destruct (thread_index_fits _ _ _ HF Hby Hty) as [Ef Hfr].
  destruct (decide _) as [[Hn Hf]|Hout].
  - rewrite (backward_kernel_inside features points grad); simpl dx; simpl dy;
      rewrite ?En, ?Ef; auto using fits_int_extent; lia.
  - apply backward_kernel_outside; simpl dx; simpl dy;
      rewrite ?En, ?Ef; auto using fits_int_extent; lia.
Qed.

Lemma backward_launch_tiled grad features points :
  fits_int (t3_size0 features) -> fits_int (t3_size2 features) ->
  backward_shapes_suffice grad features points ->
  launch (trilinear_backward_kernel features points grad
            (MkBuffer3 (t3_size0 features) 8 (t3_size2 features) ∅))
         (tile_grid (t3_size0 features) (t3_size2 features)) tile_block =
  Some (tiled_log (backward_stores points grad)
          (t3_size0 features) (t3_size2 features)).
Proof.
  intros HN HF Hshape. apply launch_tiled.
  intros b t Hin. now apply backward_kernel_tiled.
Qed.

Lemma torch_empty3_fits N F :
  fits_int N -> fits_int F -> torch_empty3 (T:=T) N 8 F = Some (MkBuffer3 N 8 F ∅).
Proof.
  intros HN HF. unfold torch_empty3, fits_int in *.
  destruct (Z.leb_spec 0 N), (Z.leb_spec 0 F); try lia. reflexivity.
Qed.

Lemma backward_cu_returns grad features points :
  fits_int (t3_size0 features) -> fits_int (t3_size2 features) ->
  backward_shapes_suffice grad features points ->
  trilinear_backward_cu grad features points =
  Returned (MkBuffer3 (t3_size0 features) 8 (t3_size2 features)
              (apply_stores (tiled_log (backward_stores points grad)
                               (t3_size0 features) (t3_size2 features)) ∅)).
Proof.
  intros HN HF Hshape. unfold trilinear_backward_cu.
  rewrite (to_int_id _ HN), (to_int_id _ HF).
  rewrite (torch_empty3_fits _ _ HN HF).
  cbv zeta. simpl dx. simpl dy.
  change (Dim3 (blocks_for (t3_size0 features) 16) (blocks_for (t3_size2 features) 16) 1)
    with (tile_grid (t3_size0 features) (t3_size2 features)).
  change (Dim3 16 16 1) with tile_block.
  now rewrite (backward_launch_tiled _ _ _ HN HF Hshape).
Qed.

End WrapperFacts.

(** ** The cells of the returned tensors *)

Section CellFacts.

Context {T : Type} `{Scalar T}.

Lemma forward_stores_to features points N F n f :
  fits_int N -> fits_int F -> 0 <= n < N -> 0 <= f < F ->
  stores_to (n, f) (tiled_log (forward_stores features points) N F) =
  [((n, f), forward_value features points n f)].
Proof.
  intros HN HF Hn Hf. unfold stores_to.
  rewrite (tiled_log_filter _ N F HN HF _ n f Hn Hf).
  - unfold forward_stores. now rewrite filter_cons_True, filter_nil.
  - intros n' f' _ _ Hne. unfold forward_stores.
    rewrite filter_cons_False; [apply filter_nil|]. simpl. congruence.
Qed.

Lemma forward_cell features points n f :
  fits_int (t3_size0 features) -> fits_int (t3_size2 features) ->
  forward_shapes_suffice features points ->
  0 <= n < t3_size0 features -> 0 <= f < t3_size2 features ->
  cell2 (trilinear_forward_cu features points) n f =
  Some (forward_value features points n f).
Proof.
  intros HN HF Hshape Hn Hf.
  rewrite (forward_cu_returns _ _ HN HF Hshape). simpl.
  apply apply_stores_single. now apply forward_stores_to.
Qed.

Lemma backward_stores_to points grad N F n c f :
  fits_int N -> fits_int F -> 0 <= n < N -> 0 <= f < F -> 0 <= c < 8 ->
  exists wt,
    corner_weights (t2_data points n 0) (t2_data points n 1) (t2_data points n 2)
      !! Z.to_nat c = Some wt /\
    stores_to (n, c, f) (tiled_log (backward_stores points grad) N F) =
    [((n, c, f), s_mul wt (t2_data grad n f))].
Proof.
  intros HN HF Hn Hf Hc. unfold stores_to.
  rewrite (tiled_log_filter _ N F HN HF _ n f Hn Hf).
  - unfold backward_stores, corner_weights. cbv zeta. simpl imap.
    assert (c = 0 \/ c = 1 \/ c = 2 \/ c = 3 \/ c = 4 \/ c = 5 \/ c = 6 \/ c = 7)
      as Hcases by lia.
    repeat (destruct Hcases as [->|Hcases]); try subst c;
      (eexists; split; [reflexivity|]);
      repeat first
        [ rewrite filter_cons_True by reflexivity
        | rewrite filter_cons_False by (simpl; intros [=])
        | rewrite filter_nil ];
      reflexivity.
  - intros n' f' _ _ Hne. unfold backward_stores, corner_weights. cbv zeta.
    simpl imap.
    repeat first
      [ rewrite filter_cons_False by (simpl; intros [= -> _ ->]; congruence)
      | rewrite filter_nil ].
    reflexivity.
Qed.

Lemma backward_cell grad features points n c f :
  fits_int (t3_size0 features) -> fits_int (t3_size2 features) ->
  backward_shapes_suffice grad features points ->
  0 <= n < t3_size0 features -> 0 <= f < t3_size2 features -> 0 <= c < 8 ->
  exists wt,
    corner_weights (t2_data points n 0) (t2_data points n 1) (t2_data points n 2)
      !! Z.to_nat c = Some wt /\
    cell3 (trilinear_backward_cu grad features points) n c f =
    Some (s_mul wt (t2_data grad n f)).
Proof.
  intros HN HF Hshape Hn Hf Hc.
  destruct (backward_stores_to points grad _ _ n c f HN HF Hn Hf Hc) as (wt & Hw & Hs).
  exists wt. split; [exact Hw|].
  rewrite (backward_cu_returns _ _ _ HN HF Hshape). simpl.
  now apply apply_stores_single.
Qed.

End CellFacts.

(** ** Two calls side by side *)

Section Relational.

Context {T : Type} `{Scalar T}.

Lemma filter_filter_weaker {A} (P Q : A -> Prop)
    `{forall x, Decision (P x)} `{forall x, Decision (Q x)} (l : list A) :
  (forall x, Q x -> P x) -> filter Q (filter P l) = filter Q l.
Proof.
  intros HQP. induction l as [|x l IH]; [reflexivity|].
  destruct (decide (P x)) as [HP|HP].
  - rewrite (filter_cons_True P) by exact HP.
    destruct (decide (Q x)) as [HQ|HQ].
    + rewrite !(filter_cons_True Q) by exact HQ. now rewrite IH.
    + rewrite !(filter_cons_False Q) by exact HQ. exact IH.
  - rewrite (filter_cons_False P) by exact HP.
    rewrite (filter_cons_False Q) by (intros HQ; apply HP, HQP, HQ). exact IH.
Qed.

Lemma mapM_rel {A B} (R : B -> B -> Prop) (g1 g2 : A -> option B) (l : list A) :
  (forall x, option_Forall2 R (g1 x) (g2 x)) ->
  option_Forall2 (Forall2 R) (mapM g1 l) (mapM g2 l).
Proof.
  intros Hg. induction l as [|x l IH]; simpl.
  - constructor. constructor.
  - destruct (Hg x) as [y1 y2 Hy|]; simpl; [|constructor].
    destruct IH as [k1 k2 Hk|]; simpl; constructor.
    constructor; assumption.
Qed.

(** Threads that pairwise fail together, or succeed with the same stores
    under [P], make launches that fail together, or succeed with the same
    stores under [P]. *)
Lemma launch_rel {W} (P : W -> Prop) `{forall x, Decision (P x)}
    (k1 k2 : dim3 -> dim3 -> dim3 -> option (list W)) nb nt :
  (forall b t, option_Forall2 (fun l1 l2 => filter P l1 = filter P l2)
                 (k1 nt b t) (k2 nt b t)) ->
  option_Forall2 (fun l1 l2 => filter P l1 = filter P l2)
    (launch k1 nb nt) (launch k2 nb nt).
Proof.
  intros Hk. unfold launch, run_threads.
  destruct (mapM_rel (fun l1 l2 => filter P l1 = filter P l2)
              (fun bt => k1 nt (fst bt) (snd bt)) (fun bt => k2 nt (fst bt) (snd bt))
              (grid_threads nb nt)) as [ls1 ls2 Hls|]; simpl.
  - intros [b t]. apply Hk.
  - constructor. induction Hls as [|l1 l2 ls1 ls2 Hl _ IH]; simpl; [reflexivity|].
    rewrite !filter_app. congruence.
  - constructor.
Qed.

(** Stores that agree on the row m give cells that agree on the row m. *)
Lemma apply_stores_row2 (l1 l2 : list (Z * Z * T)) (cells : gmap (Z * Z) T) (m f : Z) :
  filter (fun kv => fst (fst kv) = m) l1 = filter (fun kv => fst (fst kv) = m) l2 ->
  apply_stores l1 cells !! (m, f) = apply_stores l2 cells !! (m, f).
Proof.
  intros Hrow. rewrite !apply_stores_lookup. unfold stores_to.
  rewrite <- (filter_filter_weaker (fun kv : Z * Z * T => fst (fst kv) = m) _ l1)
    by (intros [[n' f'] v]; simpl; congruence).
  rewrite <- (filter_filter_weaker (fun kv : Z * Z * T => fst (fst kv) = m) _ l2)
    by (intros [[n' f'] v]; simpl; congruence).
  now rewrite Hrow.
Qed.

Lemma apply_stores_row3 (l1 l2 : list (Z * Z * Z * T)) (cells : gmap (Z * Z * Z) T)
    (m c f : Z) :
  filter (fun kv => fst (fst (fst kv)) = m) l1
    = filter (fun kv => fst (fst (fst kv)) = m) l2 ->
  apply_stores l1 cells !! (m, c, f) = apply_stores l2 cells !! (m, c, f).
Proof.
  intros Hrow. rewrite !apply_stores_lookup. unfold stores_to.
  rewrite <- (filter_filter_weaker (fun kv : Z * Z * Z * T => fst (fst (fst kv)) = m) _ l1)
    by (intros [[[n' c'] f'] v]; simpl; congruence).
  rewrite <- (filter_filter_weaker (fun kv : Z * Z * Z * T => fst (fst (fst kv)) = m) _ l2)
    by (intros [[[n' c'] f'] v]; simpl; congruence).
  now rewrite Hrow.
Qed.

(** Two computations that fail together, or succeed with related values,
    continue into computations of the same kind. *)
Lemma bind_rel {A B} (RA : A -> A -> Prop) (RB : B -> B -> Prop)
    (o1 o2 : option A) (k1 k2 : A -> option B) :
  option_Forall2 RA o1 o2 ->
  (forall a1 a2, RA a1 a2 -> option_Forall2 RB (k1 a1) (k2 a2)) ->
  option_Forall2 RB (o1 ≫= k1) (o2 ≫= k2).
Proof. intros [a1 a2 Ha|] Hk; simpl; [now apply Hk|constructor]. Qed.

(** An access to two tensors of one shape fails on both or on none. *)
Lemma read2_rel (x y : Tensor2 T) i j :
  same_shape2 x y ->
  option_Forall2 (fun a1 a2 => a1 = t2_data x i j /\ a2 = t2_data y i j)
    (read2 x i j) (read2 y i j).
Proof.
  intros (H0 & H1). unfold read2. rewrite <- H0, <- H1.
  destruct (_ && _); constructor. split; reflexivity.
Qed.

Lemma read3_rel (x y : Tensor3 T) i j k :
  same_shape3 x y ->
  option_Forall2 (fun a1 a2 => a1 = t3_data x i j k /\ a2 = t3_data y i j k)
    (read3 x i j k) (read3 y i j k).
Proof.
  intros (H0 & H1 & H2). unfold read3. rewrite <- H0, <- H1, <- H2.
  destruct (_ && _); constructor. split; reflexivity.
Qed.

Lemma store2_rel (x y : Buffer2 T) i j v1 v2 :
  b2_size0 x = b2_size0 y -> b2_size1 x = b2_size1 y ->
  option_Forall2 (fun l1 l2 => l1 = [((i, j), v1)] /\ l2 = [((i, j), v2)])
    (store2 x i j v1) (store2 y i j v2).
Proof.
  intros H0 H1. unfold store2. rewrite <- H0, <- H1.
  destruct (_ && _); constructor. split; reflexivity.
Qed.

Lemma store3_rel (x y : Buffer3 T) i j k v1 v2 :
  b3_size0 x = b3_size0 y -> b3_size1 x = b3_size1 y -> b3_size2 x = b3_size2 y ->
  option_Forall2 (fun l1 l2 => l1 = [((i, j, k), v1)] /\ l2 = [((i, j, k), v2)])
    (store3 x i j k v1) (store3 y i j k v2).
Proof.
  intros H0 H1 H2. unfold store3. rewrite <- H0, <- H1, <- H2.
  destruct (_ && _); constructor. split; reflexivity.
Qed.

Lemma option_Forall2_weaken {A} (R1 R2 : A -> A -> Prop) (o1 o2 : option A) :
  option_Forall2 R1 o1 o2 -> (forall a1 a2, R1 a1 a2 -> R2 a1 a2) ->
  option_Forall2 R2 o1 o2.
Proof. intros [a1 a2 Ha|] HR; constructor. now apply HR. Qed.

(** One thread, run on two inputs of one shape that agree on cube m. *)
Lemma forward_kernel_rel features features' points points' output output' m bd b t :
  same_shape3 features features' -> same_shape2 points points' ->
  b2_size0 output = b2_size0 output' -> b2_size1 output = b2_size1 output' ->
  agree_on_cube3 m features features' -> agree_on_cube2 m points points' ->
  option_Forall2
    (fun l1 l2 => filter (fun kv => fst (fst kv) = m) l1
                  = filter (fun kv => fst (fst kv) = m) l2)
    (trilinear_forward_kernel features points output bd b t)
    (trilinear_forward_kernel features' points' output' bd b t).
Proof.
  intros Hfs Hps Ho0 Ho1 Hfeat Hpts.
  pose proof Hfs as (Hs0 & _ & Hs2).
  unfold agree_on_cube3, agree_on_cube2 in *.
  unfold trilinear_forward_kernel. cbv zeta.
  set (n := to_size_t (to_int (to_uint (to_uint (dx bd * dx b) + dx t)))).
  set (f := to_size_t (to_int (to_uint (to_uint (dy bd * dy b) + dy t)))).
  clearbody n f. rewrite <- Hs0, <- Hs2.
  destruct ((n <? _) && (f <? _)); [|constructor; reflexivity].
  do 3 (eapply bind_rel; [now apply read2_rel|]; intros ? ? [-> ->]).
  do 8 (eapply bind_rel; [now apply read3_rel|]; intros ? ? [-> ->]).
  eapply option_Forall2_weaken; [now apply store2_rel|].
  intros l1 l2 [-> ->].
  destruct (decide (n = m)) as [->|Hne].
  - rewrite !Hfeat, !Hpts. reflexivity.
  - rewrite !filter_cons_False by (simpl; congruence). reflexivity.
Qed.

Lemma backward_kernel_rel features features' points points' grad grad'
    output output' m bd b t :
  same_shape3 features features' -> same_shape2 points points' ->
  same_shape2 grad grad' ->
  b3_size0 output = b3_size0 output' -> b3_size1 output = b3_size1 output' ->
  b3_size2 output = b3_size2 output' ->
  agree_on_cube2 m points points' -> agree_on_cube2 m grad grad' ->
  option_Forall2
    (fun l1 l2 => filter (fun kv => fst (fst (fst kv)) = m) l1
                  = filter (fun kv => fst (fst (fst kv)) = m) l2)
    (trilinear_backward_kernel features points grad output bd b t)
    (trilinear_backward_kernel features' points' grad' output' bd b t).
Proof.
  intros Hfs Hps Hgs Ho0 Ho1 Ho2 Hpts Hgrad.
  pose proof Hfs as (Hs0 & _ & Hs2).
  unfold agree_on_cube2 in *.
  unfold trilinear_backward_kernel. cbv zeta.
  set (n := to_size_t (to_int (to_uint (to_uint (dx bd * dx b) + dx t)))).
  set (f := to_size_t (to_int (to_uint (to_uint (dy bd * dy b) + dy t)))).
  clearbody n f. rewrite <- Hs0, <- Hs2.
  destruct ((n <? _) && (f <? _)); [|constructor; reflexivity].
  do 3 (eapply bind_rel; [now apply read2_rel|]; intros ? ? [-> ->]).
  do 8 (eapply bind_rel; [now apply read2_rel|]; intros ? ? [-> ->];
        eapply bind_rel; [now apply store3_rel|]; intros ? ? [-> ->]).
  constructor.
  destruct (decide (n = m)) as [->|Hne].
  - rewrite !Hgrad, !Hpts. reflexivity.
  - rewrite !filter_app.
    repeat (rewrite filter_cons_False by (simpl; congruence)). reflexivity.
Qed.

End Relational.

(** ** Finite sums *)

Section Sums.

Local Open Scope R_scope.

Lemma sum_list_ext (a b : Z -> R) (l : list Z) :
  (forall i, i ∈ l -> a i = b i) ->
  foldr Rplus 0 (a <$> l) = foldr Rplus 0 (b <$> l).
Proof.
  induction l as [|i l IH]; intros Hab; [reflexivity|].
  rewrite !fmap_cons. simpl. rewrite Hab by apply list_elem_of_here.
  rewrite IH; [reflexivity|]. intros j Hj. apply Hab. now apply list_elem_of_further.
Qed.

Lemma sum_list_plus (a b : Z -> R) (l : list Z) :
  foldr Rplus 0 ((fun i => a i + b i) <$> l) =
  foldr Rplus 0 (a <$> l) + foldr Rplus 0 (b <$> l).
Proof.
  induction l as [|i l IH]; [simpl; ring|].
  rewrite !fmap_cons. simpl. rewrite IH. ring.
Qed.

Lemma sum_list_delta_out (m : Z) (d : R) (l : list Z) :
  m ∉ l -> foldr Rplus 0 ((fun i => if decide (i = m) then d else 0) <$> l) = 0.
Proof.
  induction l as [|i l IH]; intros Hm; [reflexivity|].
  rewrite fmap_cons. simpl. apply not_elem_of_cons in Hm as [Hne Hm].
  rewrite decide_False by congruence. rewrite IH by exact Hm. ring.
Qed.

Lemma sum_list_delta (m : Z) (d : R) (l : list Z) :
  NoDup l -> m ∈ l ->
  foldr Rplus 0 ((fun i => if decide (i = m) then d else 0) <$> l) = d.
Proof.
  induction 1 as [|i l Hi Hnd IH]; intros Hm; [inversion Hm|].
  rewrite fmap_cons. simpl. apply elem_of_cons in Hm as [->|Hm].
  - rewrite decide_True by reflexivity.
    rewrite sum_list_delta_out by exact Hi. ring.
  - rewrite decide_False by (intros ->; contradiction).
    rewrite IH by exact Hm. ring.
Qed.

Lemma sumZ_ext (n : Z) (a b : Z -> R) :
  (forall i, (0 <= i < n)%Z -> a i = b i) -> sumZ n a = sumZ n b.
Proof.
  intros Hab. unfold sumZ. apply sum_list_ext.
  intros i Hi. apply elem_of_seqZ in Hi. apply Hab. lia.
Qed.

Lemma sumZ_plus (n : Z) (a b : Z -> R) :
  sumZ n (fun i => a i + b i) = sumZ n a + sumZ n b.
Proof. apply sum_list_plus. Qed.

Lemma sumZ_zero (n : Z) : sumZ n (fun _ => 0) = 0.
Proof.
  unfold sumZ. induction (seqZ 0 n) as [|i l IH]; [reflexivity|].
  rewrite fmap_cons. simpl. rewrite IH. ring.
Qed.

(** A sum whose terms differ from those of another at one index only. *)
Lemma sumZ_affine (n m : Z) (a b : Z -> R) (d : R) :
  (0 <= m < n)%Z ->
  (forall i, (0 <= i < n)%Z -> a i = b i + (if decide (i = m) then d else 0)) ->
  sumZ n a = sumZ n b + d.
Proof.
  intros Hm Hab. rewrite (sumZ_ext n a _ Hab), sumZ_plus. f_equal.
  apply sum_list_delta; [apply NoDup_seqZ|]. apply elem_of_seqZ. lia.
Qed.

Lemma sumZ_8 (a : Z -> R) :
  sumZ 8 a =
  a 0%Z + (a 1%Z + (a 2%Z + (a 3%Z + (a 4%Z + (a 5%Z + (a 6%Z + (a 7%Z + 0))))))).
Proof. reflexivity. Qed.

End Sums.

(** ** The backward operation as a gradient *)

Section Gradient.

Local Open Scope R_scope.

Variable grad : Tensor2 R.
Variable features : Tensor3 R.
Variable points : Tensor2 R.
Hypothesis call_ok : backward_call_ok grad features points.

Lemma set_feature_call_ok n c f y :
  forward_call_ok (set_feature features n c f y) points.
Proof. exact (proj1 call_ok). Qed.

Lemma forward_ok_suffices (X : Tensor3 R) :
  forward_call_ok X points -> forward_shapes_suffice X points.
Proof. intros (Hc & Hp0 & Hp1 & _). unfold forward_shapes_suffice. lia. Qed.

Lemma backward_ok_suffices : backward_shapes_suffice grad features points.
Proof.
  destruct call_ok as ((Hc & Hp0 & Hp1 & _) & Hg0 & Hg1).
  unfold backward_shapes_suffice. lia.
Qed.

(** The scalar of the gradient check, through the values of the kernel. *)
Lemma weighted_output_value (X : Tensor3 R) :
  forward_call_ok X points ->
  weighted_output grad X points =
  sumZ (t3_size0 X) (fun n =>
    sumZ (t3_size2 X) (fun f => t2_data grad n f * forward_value X points n f)).
Proof.
  intros HX. pose proof (forward_ok_suffices X HX) as Hshape.
  destruct HX as (_ & _ & _ & HN & HF).
  unfold weighted_output. apply sumZ_ext. intros n Hn.
  apply sumZ_ext. intros f Hf.
  unfold value2. now rewrite forward_cell.
Qed.

Lemma backward_value n c f :
  (0 <= n < t3_size0 features)%Z -> (0 <= c < 8)%Z -> (0 <= f < t3_size2 features)%Z ->
  cell3 (trilinear_backward_cu grad features points) n c f =
  Some (weight_of points n c * t2_data grad n f).
Proof.
  intros Hn Hc Hf. destruct call_ok as ((_ & _ & _ & HN & HF) & _).
  destruct (backward_cell grad features points n c f HN HF backward_ok_suffices
              Hn Hf Hc) as (wt & Hw & ->).
  unfold weight_of. now rewrite Hw.
Qed.

Lemma backward_value3 n c f :
  (0 <= n < t3_size0 features)%Z -> (0 <= c < 8)%Z -> (0 <= f < t3_size2 features)%Z ->
  value3 (trilinear_backward_cu grad features points) n c f =
  weight_of points n c * t2_data grad n f.
Proof. intros Hn Hc Hf. unfold value3. now rewrite backward_value. Qed.

Ltac settle_decide :=
  repeat match goal with
         | |- context [@decide ?P ?d] =>
           first [ rewrite (@decide_True _ P d) by lia
                 | rewrite (@decide_False _ P d) by lia ]
         end.

(** Replacing one feature changes one forward value, by the weight of its
    corner times the change. *)
Lemma forward_value_set n c f y n' f' :
  (0 <= c < 8)%Z ->
  forward_value (set_feature features n c f y) points n' f' =
  forward_value (set_feature features n c f 0) points n' f' +
  (if decide (n' = n) then if decide (f' = f) then weight_of points n c * y else 0
   else 0).
Proof.
  intros Hc.
  assert (c = 0 \/ c = 1 \/ c = 2 \/ c = 3 \/ c = 4 \/ c = 5 \/ c = 6 \/ c = 7)%Z
    as Hcases by lia.
  unfold forward_value, weight_of, corner_weights, set_feature.
  destruct (decide (n' = n)) as [->|Hn]; [destruct (decide (f' = f)) as [->|Hf]|];
    repeat (destruct Hcases as [->|Hcases]); try subst c;
    simpl; settle_decide; ring.
Qed.

(** The scalar of the gradient check is affine in each feature, with the
    cell of the backward operation as its slope. *)
Lemma weighted_output_affine n c f y :
  (0 <= n < t3_size0 features)%Z -> (0 <= c < 8)%Z -> (0 <= f < t3_size2 features)%Z ->
  weighted_output grad (set_feature features n c f y) points =
  weighted_output grad (set_feature features n c f 0) points +
  y * value3 (trilinear_backward_cu grad features points) n c f.
Proof.
  intros Hn Hc Hf.
  rewrite !weighted_output_value by apply set_feature_call_ok.
  rewrite backward_value3 by assumption.
  change (t3_size0 (set_feature features n c f y)) with (t3_size0 features).
  change (t3_size2 (set_feature features n c f y)) with (t3_size2 features).
  change (t3_size0 (set_feature features n c f 0)) with (t3_size0 features).
  change (t3_size2 (set_feature features n c f 0)) with (t3_size2 features).
  apply (sumZ_affine _ n); [exact Hn|]. intros n' Hn'.
  destruct (decide (n' = n)) as [->|Hne].
  - apply (sumZ_affine _ f); [exact Hf|]. intros f' Hf'.
    rewrite forward_value_set by exact Hc.
    rewrite (decide_True (P := n = n)) by reflexivity.
    destruct (decide (f' = f)) as [->|Hfe]; ring.
  - rewrite Rplus_0_r. apply sumZ_ext. intros f' Hf'.
    rewrite forward_value_set by exact Hc.
    rewrite (decide_False (P := n' = n)) by exact Hne. ring.
Qed.

Lemma derivable_affine (D : R -> R) (slope : R) :
  (forall y, D y = D 0 + y * slope) ->
  forall x, derivable_pt_lim D x slope.
Proof.
  intros Haff x eps Heps. exists (mkposreal 1 Rlt_0_1). intros h Hh _.
  rewrite (Haff (x + h)), (Haff x).
  replace ((D 0 + (x + h) * slope - (D 0 + x * slope)) / h - slope) with 0
    by (field; exact Hh).
  rewrite Rabs_R0. exact Heps.
Qed.

End Gradient.

(** ** What holds of every call, whatever the shapes *)

Section EveryCall.

Context {T : Type} `{Scalar T}.

Lemma read2_Some (t : Tensor2 T) i j a : read2 t i j = Some a -> a = t2_data t i j.
Proof. unfold read2. destruct (_ && _); congruence. Qed.

Lemma read3_Some (t : Tensor3 T) i j k a : read3 t i j k = Some a -> a = t3_data t i j k.
Proof. unfold read3. destruct (_ && _); congruence. Qed.

Lemma store2_Some (b : Buffer2 T) i j v l : store2 b i j v = Some l -> l = [((i, j), v)].
Proof. unfold store2. destruct (_ && _); congruence. Qed.

(** Whatever a forward thread stores is the forward value of the cell. *)
Lemma forward_kernel_stores features points output bd b t l :
  trilinear_forward_kernel features points output bd b t = Some l ->
  Forall (fun kv => snd kv = forward_value features points (fst (fst kv)) (snd (fst kv))) l.
Proof.
  unfold trilinear_forward_kernel. cbv zeta.
  set (n := to_size_t (to_int (to_uint (to_uint (dx bd * dx b) + dx t)))).
  set (f := to_size_t (to_int (to_uint (to_uint (dy bd * dy b) + dy t)))).
  clearbody n f.
  destruct ((n <? _) && (f <? _)); [|intros [= <-]; constructor].
  intros Hk.
  do 3 (apply bind_Some in Hk as (? & Hr & Hk); apply read2_Some in Hr; subst).
  do 8 (apply bind_Some in Hk as (? & Hr & Hk); apply read3_Some in Hr; subst).
  apply store2_Some in Hk. subst. constructor; [reflexivity|constructor].
Qed.

Lemma launch_Forall {W} (P : W -> Prop)
    (kernel : dim3 -> dim3 -> dim3 -> option (list W)) nb nt log :
  (forall b t l, kernel nt b t = Some l -> Forall P l) ->
  launch kernel nb nt = Some log -> Forall P log.
Proof.
  intros Hk. unfold launch, run_threads. intros Hl.
  apply fmap_Some in Hl as (logs & Hm & ->).
  apply mapM_Some_1 in Hm.
  induction Hm as [|[b t] l bts logs Hbt _ IH]; simpl; [constructor|].
  apply Forall_app. split; [|exact IH]. now apply (Hk b t).
Qed.

Lemma last_stores_to {K} `{EqDecision K} (k : K) (log : list (K * T)) kv :
  last (stores_to k log) = Some kv -> kv ∈ log /\ fst kv = k.
Proof.
  intros Hlast. apply last_Some in Hlast as (l' & Hl').
  assert (kv ∈ stores_to k log) as Hin
    by (rewrite Hl'; apply elem_of_app; right; apply list_elem_of_here).
  unfold stores_to in Hin. apply list_elem_of_filter in Hin as [Hk Hin]. now split.
Qed.

(** A cell of the forward result, when it holds anything, holds the forward
    value, for every input. *)
Lemma forward_cell_value features points n f v :
  cell2 (trilinear_forward_cu features points) n f = Some v ->
  v = forward_value features points n f.
Proof.
  unfold trilinear_forward_cu. destruct (torch_empty2 _ _) as [out|] eqn:Eout;
    [|discriminate].
  cbv zeta. destruct (launch _ _ _) as [log|] eqn:Elog; [|discriminate].
  simpl. rewrite apply_stores_lookup.
  destruct (last (stores_to (n, f) log)) as [kv|] eqn:Elast.
  - intros [= <-]. apply last_stores_to in Elast as [Hin Hkey].
    pose proof (launch_Forall _ _ _ _ _
                  (forward_kernel_stores features points out (Dim3 16 16 1)) Elog) as Hall.
    rewrite Forall_forall in Hall. specialize (Hall kv Hin).
    rewrite Hkey in Hall. exact Hall.
  - unfold torch_empty2 in Eout. destruct (_ && _); [|discriminate].
    injection Eout as <-. simpl. rewrite lookup_empty. discriminate.
Qed.

End EveryCall.

Section SameShape.

Context {T : Type} `{Scalar T}.

(** Launches of threads that pairwise fail together, or succeed in a
    relation that [++] preserves, fail together or succeed in the relation. *)
Lemma launch_related {W} (Q : list W -> list W -> Prop)
    (k1 k2 : dim3 -> dim3 -> dim3 -> option (list W)) nb nt :
  Q [] [] ->
  (forall l1 l2 l1' l2', Q l1 l2 -> Q l1' l2' -> Q (l1 ++ l1') (l2 ++ l2')) ->
  (forall b t, option_Forall2 Q (k1 nt b t) (k2 nt b t)) ->
  option_Forall2 Q (launch k1 nb nt) (launch k2 nb nt).
Proof.
  intros Hnil Happ Hk. unfold launch, run_threads.
  destruct (mapM_rel Q (fun bt => k1 nt (fst bt) (snd bt))
              (fun bt => k2 nt (fst bt) (snd bt)) (grid_threads nb nt))
    as [ls1 ls2 Hls|]; simpl.
  - intros [b t]. apply Hk.
  - constructor. induction Hls as [|l1 l2 ls1 ls2 Hl _ IH]; simpl; auto.
  - constructor.
Qed.

(** On inputs of one shape a forward thread stores to the same cells. *)
Lemma forward_kernel_keys features features' points points' output output' bd b t :
  same_shape3 features features' -> same_shape2 points points' ->
  b2_size0 output = b2_size0 output' -> b2_size1 output = b2_size1 output' ->
  option_Forall2 (fun l1 l2 => l1.*1 = l2.*1)
    (trilinear_forward_kernel features points output bd b t)
    (trilinear_forward_kernel features' points' output' bd b t).
Proof.
  intros Hfs Hps Ho0 Ho1. pose proof Hfs as (Hs0 & _ & Hs2).
  unfold trilinear_forward_kernel. cbv zeta.
  set (n := to_size_t (to_int (to_uint (to_uint (dx bd * dx b) + dx t)))).
  set (f := to_size_t (to_int (to_uint (to_uint (dy bd * dy b) + dy t)))).
  clearbody n f. rewrite <- Hs0, <- Hs2.
  destruct ((n <? _) && (f <? _)); [|constructor; reflexivity].
  do 3 (eapply bind_rel; [now apply read2_rel|]; intros ? ? [-> ->]).
  do 8 (eapply bind_rel; [now apply read3_rel|]; intros ? ? [-> ->]).
  eapply option_Forall2_weaken; [now apply store2_rel|].
  intros l1 l2 [-> ->]. reflexivity.
Qed.

Lemma apply_stores_is_Some {K} `{Countable K} (log : list (K * T)) (k : K) :
  is_Some (apply_stores log ∅ !! k) <-> k ∈ log.*1.
Proof.
  rewrite apply_stores_lookup, lookup_empty. split.
  - destruct (last (stores_to k log)) as [kv|] eqn:Elast; [|intros [? [=]]].
    intros _. apply last_stores_to in Elast as [Hin <-].
    apply list_elem_of_fmap. now exists kv.
  - intros Hin. apply list_elem_of_fmap in Hin as (kv & -> & Hin).
    destruct (last (stores_to (fst kv) log)) as [kv'|] eqn:Elast; [eauto|].
    apply last_None in Elast.
    assert (kv ∈ stores_to (fst kv) log) as Hin'
      by (apply list_elem_of_filter; split; [reflexivity|exact Hin]).
    rewrite Elast in Hin'. inversion Hin'.
Qed.

(** Whether a cell of the forward result holds anything depends on the
    shapes of the call alone. *)
Lemma forward_cell_defined features features' points points' n f :
  same_shape3 features features' -> same_shape2 points points' ->
  is_Some (cell2 (trilinear_forward_cu features points) n f) <->
  is_Some (cell2 (trilinear_forward_cu features' points') n f).
Proof.
  intros Hfs Hps. pose proof Hfs as (Hs0 & _ & Hs2).
  unfold trilinear_forward_cu. rewrite <- Hs0, <- Hs2.
  destruct (torch_empty2 _ _) as [out|] eqn:Eout; [|reflexivity].
  cbv zeta.
  destruct (launch_related (fun l1 l2 : list (Z * Z * T) => l1.*1 = l2.*1)
              (trilinear_forward_kernel features points out)
              (trilinear_forward_kernel features' points' out)
              (Dim3 (blocks_for (to_int (t3_size0 features)) (dx (Dim3 16 16 1)))
                    (blocks_for (to_int (t3_size2 features)) (dy (Dim3 16 16 1))) 1)
              (Dim3 16 16 1)) as [l1 l2 Hl|]; try reflexivity.
  - intros l1 l2 l1' l2' H1 H2. rewrite !fmap_app. congruence.
  - intros b t. now apply forward_kernel_keys.
  - simpl. unfold torch_empty2 in Eout. destruct (_ && _); [|discriminate].
    injection Eout as <-. simpl. rewrite !apply_stores_is_Some. now rewrite Hl.
Qed.

End SameShape.

(** ** The order in which the threads run *)

Section Schedules.

Context {T : Type} `{Scalar T}.

Lemma concat_fmap_Permutation {A X} (g : A -> list X) (l1 l2 : list A) :
  l1 ≡ₚ l2 -> concat (g <$> l1) ≡ₚ concat (g <$> l2).
Proof.
  induction 1 as [|a l1 l2 _ IH|a b l|l1 l2 l3 _ IH1 _ IH2]; simpl.
  - reflexivity.
  - now rewrite IH.
  - rewrite !app_assoc. now rewrite (Permutation_app_comm (g b) (g a)).
  - now rewrite IH1.
Qed.

Lemma run_threads_all_Some {W} (kernel : dim3 -> dim3 -> dim3 -> option (list W))
    (g : dim3 * dim3 -> list W) bd (schedule : list (dim3 * dim3)) :
  (forall bt, bt ∈ schedule -> kernel bd (fst bt) (snd bt) = Some (g bt)) ->
  run_threads kernel bd schedule = Some (concat (g <$> schedule)).
Proof.
  intros Hk. unfold run_threads.
  assert (mapM (fun bt => kernel bd (fst bt) (snd bt)) schedule = Some (g <$> schedule))
    as ->; [|reflexivity].
  apply mapM_Some_2.
  induction schedule as [|bt l IH]; [constructor|].
  rewrite fmap_cons. constructor.
  - apply Hk, list_elem_of_here.
  - apply IH. intros bt' Hin. apply Hk. now apply list_elem_of_further.
Qed.

(** Stores that go to pairwise different cells commute. *)
Lemma apply_stores_Permutation {K} `{Countable K} (l1 l2 : list (K * T)) (m : gmap K T) :
  (forall k, (length (stores_to k l1) <= 1)%nat) -> l1 ≡ₚ l2 ->
  apply_stores l1 m = apply_stores l2 m.
Proof.
  intros Hone Hperm. apply map_eq. intros k. rewrite !apply_stores_lookup.
  assert (stores_to k l1 ≡ₚ stores_to k l2) as Hk
    by (unfold stores_to; now rewrite Hperm).
  specialize (Hone k). destruct (stores_to k l1) as [|x [|y l]].
  - apply Permutation_nil in Hk. now rewrite Hk.
  - apply Permutation_length_1_inv in Hk. now rewrite Hk.
  - simpl in Hone. lia.
Qed.

Lemma filter_concat_none {A X} (P : X -> Prop) `{forall x, Decision (P x)}
    (g : A -> list X) (l : list A) :
  (forall a, a ∈ l -> filter P (g a) = []) -> filter P (concat (g <$> l)) = [].
Proof.
  induction l as [|a l IH]; intros Hg; [reflexivity|].
  rewrite fmap_cons. simpl. rewrite filter_app, Hg, IH; [reflexivity| |].
  - intros a' Hin. apply Hg. now apply list_elem_of_further.
  - apply list_elem_of_here.
Qed.

(** Entries that no index pair inside the extents produces are not in the log. *)
Lemma tiled_log_filter_none {W} (stores : Z -> Z -> list W) N F
    (P : W -> Prop) `{forall x, Decision (P x)} :
  (forall n f, 0 <= n < N -> 0 <= f < F -> filter P (stores n f) = []) ->
  filter P (tiled_log stores N F) = [].
Proof.
  intros Hnone. unfold tiled_log. apply filter_concat_none.
  intros [b t] Hin. simpl.
  destruct (decide _) as [[Hn Hf]|]; [|reflexivity].
  apply elem_of_grid_threads in Hin as [Hb Ht].
  apply elem_of_block_indices in Hb, Ht. apply Hnone; lia.
Qed.

Lemma forward_log_single features points N F k :
  fits_int N -> fits_int F ->
  (length (stores_to k (tiled_log (forward_stores features points) N F)) <= 1)%nat.
Proof.
  intros HN HF. destruct k as [n f].
  destruct (decide (0 <= n < N /\ 0 <= f < F)) as [[Hn Hf]|Hout].
  - now rewrite forward_stores_to.
  - unfold stores_to. rewrite tiled_log_filter_none; [simpl; lia|].
    intros n' f' Hn' Hf'. unfold forward_stores.
    rewrite filter_cons_False; [reflexivity|]. simpl. intros [= -> ->]. tauto.
Qed.

Lemma backward_log_single points grad N F k :
  fits_int N -> fits_int F ->
  (length (stores_to k (tiled_log (backward_stores points grad) N F)) <= 1)%nat.
Proof.
  intros HN HF. destruct k as [[n c] f].
  destruct (decide ((0 <= n < N /\ 0 <= f < F) /\ 0 <= c < 8)) as [[[Hn Hf] Hc]|Hout].
  - destruct (backward_stores_to points grad N F n c f HN HF Hn Hf Hc) as (wt & _ & ->).
    reflexivity.
  - unfold stores_to. rewrite tiled_log_filter_none; [simpl; lia|].
    intros n' f' Hn' Hf'. unfold backward_stores, corner_weights. cbv zeta.
    simpl imap.
    repeat first
      [ rewrite filter_cons_False by (simpl; intros [= -> ? ->]; lia)
      | rewrite filter_nil ].
    reflexivity.
Qed.

(** X8. The forward launch has no race: on a call in the shapes of the data
    model with N, F <= INT_MAX, whatever the order in which the threads of
    the grid run (any permutation of the grid), the run comes to its end
    and its stores leave the tensor that the wrapper returns. *)
Lemma forward_schedule_independent features points schedule :
  forward_call_ok features points ->
  schedule ≡ₚ grid_threads (tile_grid (t3_size0 features) (t3_size2 features)) tile_block ->
  exists log,
    run_threads (trilinear_forward_kernel features points
                   (MkBuffer2 (t3_size0 features) (t3_size2 features) ∅))
                tile_block schedule = Some log /\
    trilinear_forward_cu features points =
    Returned (MkBuffer2 (t3_size0 features) (t3_size2 features) (apply_stores log ∅)).
Proof.
  intros (Hc & Hp0 & Hp1 & HN & HF) Hperm.
  assert (forward_shapes_suffice features points) as Hshape
    by (unfold forward_shapes_suffice; lia).
  pose (g := fun bt : dim3 * dim3 =>
              if decide (16 * dx (fst bt) + dx (snd bt) < t3_size0 features /\
                         16 * dy (fst bt) + dy (snd bt) < t3_size2 features)
              then forward_stores features points
                     (16 * dx (fst bt) + dx (snd bt)) (16 * dy (fst bt) + dy (snd bt))
              else []).
  exists (concat (g <$> schedule)). split.
  - apply run_threads_all_Some. intros [b t] Hin. simpl.
    apply forward_kernel_tiled; try assumption. now rewrite <- Hperm.
  - rewrite (forward_cu_returns _ _ HN HF Hshape). do 2 f_equal.
    apply apply_stores_Permutation.
    + intros k. now apply forward_log_single.
    + unfold tiled_log. symmetry. now apply concat_fmap_Permutation.
Qed.

(** X9. The backward launch has no race: on a call in the shapes of the
    data model with N, F <= INT_MAX, whatever the order in which the threads
    of the grid run (any permutation of the grid), the run comes to its end
    and its stores leave the tensor that the wrapper returns. *)
Lemma backward_schedule_independent grad features points schedule :
  backward_call_ok grad features points ->
  schedule ≡ₚ grid_threads (tile_grid (t3_size0 features) (t3_size2 features)) tile_block ->
  exists log,
    run_threads (trilinear_backward_kernel features points grad
                   (MkBuffer3 (t3_size0 features) 8 (t3_size2 features) ∅))
                tile_block schedule = Some log /\
    trilinear_backward_cu grad features points =
    Returned (MkBuffer3 (t3_size0 features) 8 (t3_size2 features) (apply_stores log ∅)).
Proof.
  intros ((Hc & Hp0 & Hp1 & HN & HF) & Hg0 & Hg1) Hperm.
  assert (backward_shapes_suffice grad features points) as Hshape
    by (unfold backward_shapes_suffice; lia).
  pose (g := fun bt : dim3 * dim3 =>
              if decide (16 * dx (fst bt) + dx (snd bt) < t3_size0 features /\
                         16 * dy (fst bt) + dy (snd bt) < t3_size2 features)
              then backward_stores points grad
                     (16 * dx (fst bt) + dx (snd bt)) (16 * dy (fst bt) + dy (snd bt))
              else []).
  exists (concat (g <$> schedule)). split.
  - apply run_threads_all_Some. intros [b t] Hin. simpl.
    apply backward_kernel_tiled; try assumption. now rewrite <- Hperm.
  - rewrite (backward_cu_returns _ _ _ HN HF Hshape). do 2 f_equal.
    apply apply_stores_Permutation.
    + intros k. now apply backward_log_single.
    + unfold tiled_log. symmetry. now apply concat_fmap_Permutation.
Qed.

End Schedules.

(** * The claims *)

(** ** Inputs of the examples *)

Lemma scenario_shapes : backward_shapes scenario_grad scenario_features scenario_points.
Proof. unfold backward_shapes, forward_shapes. simpl. lia. Defined.

Lemma ramp_shapes : backward_shapes unit_grad ramp_features corner_points.
Proof. unfold backward_shapes, forward_shapes. simpl. lia. Defined.

Lemma fits_int_1 : fits_int 1.
Proof. unfold fits_int, INT_MAX. lia. Defined.

(** The huge inputs have the shapes of the data model, yet the wrappers see
    N = 0 cubes: 2^32 does not fit the [int] that holds features.size(0).
    The grid has no block, no thread runs, and the tensors returned have no
    row. *)
Lemma huge_shapes {T} `{Scalar T} :
  backward_shapes (T:=T) huge_grad huge_features huge_points.
Proof. unfold backward_shapes, forward_shapes. simpl. lia. Qed.

Lemma huge_forward_returns {T} `{Scalar T} :
  trilinear_forward_cu (T:=T) huge_features huge_points = Returned (MkBuffer2 0 1 ∅).
Proof. reflexivity. Qed.

Lemma huge_backward_returns {T} `{Scalar T} :
  trilinear_backward_cu (T:=T) huge_grad huge_features huge_points
  = Returned (MkBuffer3 0 8 1 ∅).
Proof. reflexivity. Qed.

Lemma forward_call_ok_intro {T} (features : Tensor3 T) (points : Tensor2 T) :
  forward_shapes features points ->
  fits_int (t3_size0 features) -> fits_int (t3_size2 features) ->
  forward_call_ok features points.
Proof.
  intros (Hc & Hp0 & Hp1) HN HF. unfold forward_call_ok.
  do 4 (split; [assumption|]). assumption.
Qed.

Lemma backward_call_ok_intro {T} (grad : Tensor2 T) (features : Tensor3 T)
    (points : Tensor2 T) :
  backward_shapes grad features points ->
  fits_int (t3_size0 features) -> fits_int (t3_size2 features) ->
  backward_call_ok grad features points.
Proof.
  intros (Hs & Hg0 & Hg1) HN HF. split; [|now split].
  now apply forward_call_ok_intro.
Qed.

(** ** C1 and C2: the values written *)

Section Formulas.

Context {T : Type} `{Scalar T}.
Local Open Scope scalar_scope.

(** C1, for extents in the range of [int].  On a call in the shapes of the
    data model, Features (N, 8, F) and Points (N, 3), with N and F at most
    INT_MAX = 2^31 - 1, for every cube index n with 0 <= n < N and channel
    index f with 0 <= f < F the forward operation writes
    Output[n,f] = (1-u)*(a*Feat[n,0,f] + b*Feat[n,1,f] + c*Feat[n,2,f] + d*Feat[n,3,f])
                + u*(a*Feat[n,4,f] + b*Feat[n,5,f] + c*Feat[n,6,f] + d*Feat[n,7,f]),
    where u = (px+1)/2, v = (py+1)/2, w = (pz+1)/2 for the point of cube n
    and a = (1-v)(1-w), b = (1-v)w, c = v(1-w), d = 1-a-b-c.  The equation
    is one of terms of [scalar_t], whatever its arithmetic. *)
Theorem forward_output_formula (features : Tensor3 T) (points : Tensor2 T) (n f : Z) :
  forward_shapes features points ->
  fits_int (t3_size0 features) -> fits_int (t3_size2 features) ->
  (0 <= n < t3_size0 features)%Z -> (0 <= f < t3_size2 features)%Z ->
  let Feat := fun corner : Z => t3_data features n corner f in
  let u := (t2_data points n 0 + 1) / 2 in
  let v := (t2_data points n 1 + 1) / 2 in
  let w := (t2_data points n 2 + 1) / 2 in
  let a := (1 - v) * (1 - w) in
  let b := (1 - v) * w in
  let c := v * (1 - w) in
  let d := 1 - a - b - c in
  cell2 (trilinear_forward_cu features points) n f =
  Some ((1 - u) * (a * Feat 0%Z + b * Feat 1%Z + c * Feat 2%Z + d * Feat 3%Z)
        + u * (a * Feat 4%Z + b * Feat 5%Z + c * Feat 6%Z + d * Feat 7%Z)).
Proof.
  intros (Hc & Hp0 & Hp1) HN HF Hn Hf. cbv zeta.
  rewrite forward_cell; try assumption; [reflexivity|].
  unfold forward_shapes_suffice. lia.
Qed.

(** C2, for extents in the range of [int].  On a call in the shapes of the
    data model with N and F at most INT_MAX, for every cube index n, corner
    index c in 0..7 and channel index f the backward operation writes
    FeatureGradient[n,c,f] equal to the weight of the corner times
    UpstreamGradient[n,f]: the weights of the corners 0..3 are (1-u)*a,
    (1-u)*b, (1-u)*c, (1-u)*d and those of the corners 4..7 are u*a, u*b,
    u*c, u*d, with u, a, b, c, d computed from Points[n] as in the forward
    kernel. *)
Theorem backward_gradient_formula
    (grad : Tensor2 T) (features : Tensor3 T) (points : Tensor2 T) (n f : Z) :
  backward_shapes grad features points ->
  fits_int (t3_size0 features) -> fits_int (t3_size2 features) ->
  (0 <= n < t3_size0 features)%Z -> (0 <= f < t3_size2 features)%Z ->
  let u := (t2_data points n 0 + 1) / 2 in
  let v := (t2_data points n 1 + 1) / 2 in
  let w := (t2_data points n 2 + 1) / 2 in
  let a := (1 - v) * (1 - w) in
  let b := (1 - v) * w in
  let c := v * (1 - w) in
  let d := 1 - a - b - c in
  let g := t2_data grad n f in
  let dFeat := fun corner : Z =>
    cell3 (trilinear_backward_cu grad features points) n corner f in
  dFeat 0%Z = Some ((1 - u) * a * g) /\
  dFeat 1%Z = Some ((1 - u) * b * g) /\
  dFeat 2%Z = Some ((1 - u) * c * g) /\
  dFeat 3%Z = Some ((1 - u) * d * g) /\
  dFeat 4%Z = Some (u * a * g) /\
  dFeat 5%Z = Some (u * b * g) /\
  dFeat 6%Z = Some (u * c * g) /\
  dFeat 7%Z = Some (u * d * g).
Proof.
  intros ((Hc & Hp0 & Hp1) & Hg0 & Hg1) HN HF Hn Hf. cbv zeta.
  assert (backward_shapes_suffice grad features points) as Hshape
    by (unfold backward_shapes_suffice; lia).
  repeat split.
  all: match goal with
       | |- cell3 _ _ ?corner _ = _ =>
         destruct (backward_cell grad features points n corner f HN HF Hshape Hn Hf)
           as (wt & Hw & ->); [lia|]
       end.
  all: injection Hw as <-; reflexivity.
Qed.

End Formulas.

Lemma forward_output_formula_witness :
  cell2 (trilinear_forward_cu scenario_features scenario_points) 0 0 =
  Some (forward_value scenario_features scenario_points 0 0).
Proof.
  apply (forward_output_formula scenario_features scenario_points 0 0).
  - exact (proj1 scenario_shapes).
  - exact fits_int_1.
  - exact fits_int_1.
  - simpl. lia.
  - simpl. lia.
Defined.

(** With 2^32 cubes Output[0,0] is not written, whatever value is expected
    there. *)
Lemma forward_output_beyond_int :
  ~ (forward_shapes (T:=Q) huge_features huge_points ->
     0 <= 0 < t3_size0 (T:=Q) huge_features ->
     0 <= 0 < t3_size2 (T:=Q) huge_features ->
     cell2 (trilinear_forward_cu (T:=Q) huge_features huge_points) 0 0 =
     Some (forward_value huge_features huge_points 0 0)).
Proof.
  intros Hclaim.
  assert (cell2 (trilinear_forward_cu (T:=Q) huge_features huge_points) 0 0 =
          Some (forward_value huge_features huge_points 0 0)) as Hcell.
  { apply Hclaim; [exact (proj1 huge_shapes)|simpl; lia|simpl; lia]. }
  rewrite huge_forward_returns in Hcell. discriminate Hcell.
Qed.

Lemma backward_gradient_formula_witness :
  Qred <$> cell3 (trilinear_backward_cu scenario_grad scenario_features scenario_points)
             0 0 0 = Some 1%Q.
Proof.
  destruct (backward_gradient_formula scenario_grad scenario_features scenario_points 0 0)
    as (-> & _).
  - exact scenario_shapes.
  - exact fits_int_1.
  - exact fits_int_1.
  - simpl. lia.
  - simpl. lia.
  - reflexivity.
Defined.

(** With 2^32 cubes FeatureGradient[0,0,0] is not written. *)
Lemma backward_gradient_beyond_int :
  ~ (backward_shapes (T:=Q) huge_grad huge_features huge_points ->
     0 <= 0 < t3_size0 (T:=Q) huge_features ->
     0 <= 0 < t3_size2 (T:=Q) huge_features ->
     is_Some (cell3 (trilinear_backward_cu (T:=Q) huge_grad huge_features huge_points)
                0 0 0)).
Proof.
  intros Hclaim.
  destruct Hclaim as [v Hcell]; [exact huge_shapes|simpl; lia|simpl; lia|].
  rewrite huge_backward_returns in Hcell. discriminate Hcell.
Qed.

(** ** C3, C6 and C7: exact arithmetic *)

Section Exact.

Local Open Scope R_scope.

(** C3, for extents in the range of [int].  Over the real numbers the
    backward operation is the exact gradient of the forward operation: for
    Features, Points and an UpstreamGradient g in the shapes of the data
    model with N and F at most INT_MAX, and every element index (n, c, f),
    the scalar sum over (n, f) of g[n,f] * Output[n,f], as a function of the
    one element Features[n,c,f], has at every point the derivative
    FeatureGradient[n,c,f], an element the backward call writes; and the sum
    over (n, f) of g[n,f] * Output[n,f] equals the sum over (n, c, f) of
    FeatureGradient[n,c,f] * Features[n,c,f]. *)
Theorem backward_is_gradient (grad : Tensor2 R) (features : Tensor3 R) (points : Tensor2 R) :
  backward_shapes grad features points ->
  fits_int (t3_size0 features) -> fits_int (t3_size2 features) ->
  (forall n c f,
     (0 <= n < t3_size0 features)%Z -> (0 <= c < 8)%Z -> (0 <= f < t3_size2 features)%Z ->
     is_Some (cell3 (trilinear_backward_cu grad features points) n c f) /\
     forall x,
       derivable_pt_lim
         (fun y => weighted_output grad (set_feature features n c f y) points) x
         (value3 (trilinear_backward_cu grad features points) n c f)) /\
  weighted_output grad features points =
  sumZ (t3_size0 features) (fun n =>
    sumZ 8 (fun c =>
      sumZ (t3_size2 features) (fun f =>
        value3 (trilinear_backward_cu grad features points) n c f
        * t3_data features n c f))).
Proof.
  intros Hshapes HN HF.
  pose proof (backward_call_ok_intro _ _ _ Hshapes HN HF) as Hok. split.
  - intros n c f Hn Hc Hf. split.
    + rewrite (backward_value grad features points Hok) by assumption. eauto.
    + apply derivable_affine. intros y.
      rewrite (weighted_output_affine grad features points Hok n c f y) by assumption.
      rewrite (weighted_output_affine grad features points Hok n c f 0) by assumption.
      ring.
  - rewrite (weighted_output_value grad points features) by exact (proj1 Hok).
    apply sumZ_ext. intros n Hn. rewrite sumZ_8.
    assert (forall k, (0 <= k < 8)%Z ->
              sumZ (t3_size2 features) (fun f =>
                value3 (trilinear_backward_cu grad features points) n k f
                * t3_data features n k f) =
              sumZ (t3_size2 features) (fun f =>
                weight_of points n k * t2_data grad n f * t3_data features n k f))
      as Hcorner.
    { intros k Hk. apply sumZ_ext. intros f Hf.
      now rewrite (backward_value3 grad features points Hok). }
    rewrite !Hcorner by lia.
    rewrite <- (sumZ_zero (t3_size2 features)).
    rewrite <- !sumZ_plus.
    apply sumZ_ext. intros f Hf.
    unfold forward_value, weight_of, corner_weights. simpl. ring.
Qed.

(** The forward value is the sum of the corner features under the weights. *)
Lemma forward_value_weights (features : Tensor3 R) (points : Tensor2 R) n f :
  forward_value features points n f =
  foldr Rplus 0
    (imap (fun c wt => wt * t3_data features n (Z.of_nat c) f)
       (corner_weights (t2_data points n 0%Z) (t2_data points n 1%Z)
                       (t2_data points n 2%Z))).
Proof.
  unfold forward_value, corner_weights. cbn.
  repeat match goal with
         | |- context [Z.of_nat ?k] =>
           let z := eval vm_compute in (Z.of_nat k) in change (Z.of_nat k) with z
         end.
  ring.
Qed.

(** C6. Partition of unity, read off the forward call.  The weight the
    forward operation puts on a corner is its output on the features that
    are 1 at that corner and 0 at the seven others.  For every query point,
    hence for every (u, v, w), also outside [0,1], over the real numbers:
    a+b+c+d = 1 by d = 1-a-b-c; the eight expressions (1-u)a, (1-u)b,
    (1-u)c, (1-u)d, ua, ub, uc, ud sum to 1; whatever the call yields as
    the weight of a corner is the expression of that corner, and whatever
    it yields as Output[n,f] is the sum of the corner features under these
    weights; the eight weights the call yields sum to 1; and on the shapes
    of the data model with N and F at most INT_MAX and (n, f) inside the
    extents the call yields Output[n,f] and all eight weights. *)
Theorem partition_of_unity (features : Tensor3 R) (points : Tensor2 R) (n f : Z) :
  let N := t3_size0 features in
  let F := t3_size2 features in
  let u := (t2_data points n 0%Z + 1) / 2 in
  let v := (t2_data points n 1%Z + 1) / 2 in
  let w := (t2_data points n 2%Z + 1) / 2 in
  let a := (1 - v) * (1 - w) in
  let b := (1 - v) * w in
  let c := v * (1 - w) in
  let d := 1 - a - b - c in
  let weights :=
    [(1 - u) * a; (1 - u) * b; (1 - u) * c; (1 - u) * d; u * a; u * b; u * c; u * d] in
  let kernel_weight := fun corner : Z =>
    cell2 (trilinear_forward_cu (corner_indicator N F corner) points) n f in
  a + b + c + d = 1 /\
  foldr Rplus 0 weights = 1 /\
  (forall corner wt, (0 <= corner < 8)%Z -> kernel_weight corner = Some wt ->
     weights !! Z.to_nat corner = Some wt) /\
  (forall y, cell2 (trilinear_forward_cu features points) n f = Some y ->
     y = foldr Rplus 0
           (imap (fun k wt => wt * t3_data features n (Z.of_nat k) f) weights)) /\
  ((forall corner, (0 <= corner < 8)%Z -> is_Some (kernel_weight corner)) ->
   sumZ 8 (fun corner => default 0 (kernel_weight corner)) = 1) /\
  (forward_shapes features points -> fits_int N -> fits_int F ->
   (0 <= n < N)%Z -> (0 <= f < F)%Z ->
   is_Some (cell2 (trilinear_forward_cu features points) n f) /\
   forall corner, (0 <= corner < 8)%Z -> is_Some (kernel_weight corner)).
Proof.
  cbv zeta. split; [ring|]. split; [simpl; ring|]. split; [|split; [|split]].
  - intros corner wt Hcorner Hw. apply forward_cell_value in Hw as ->.
    assert (corner = 0 \/ corner = 1 \/ corner = 2 \/ corner = 3 \/
            corner = 4 \/ corner = 5 \/ corner = 6 \/ corner = 7)%Z as Hcases by lia.
    repeat (destruct Hcases as [->|Hcases]); try subst corner;
      unfold forward_value, corner_indicator; simpl; f_equal; ring.
  - intros y Hy. apply forward_cell_value in Hy as ->.
    exact (forward_value_weights features points n f).
  - intros Hall. rewrite sumZ_8.
    repeat match goal with
           | |- context [cell2 (trilinear_forward_cu (corner_indicator ?N ?F ?k) points)
                           n f] =>
             let wt := fresh "wt" in
             let Hw := fresh "Hw" in
             destruct (Hall k ltac:(lia)) as [wt Hw]; rewrite Hw;
             apply forward_cell_value in Hw; subst wt
           end.
    unfold forward_value, corner_indicator. simpl. ring.
  - intros (Hc & Hp0 & Hp1) HN HF Hn Hf.
    split; [|intros corner Hcorner];
      (rewrite forward_cell; try assumption;
       [eauto|unfold forward_shapes_suffice; simpl; lia]).
Qed.

(** C7, for extents in the range of [int].  Corner exactness over the real
    numbers, on a call in the shapes of the data model with N and F at most
    INT_MAX: when the normalised coordinates (u, v, w) of Points[n] lie in
    {0,1}^3, Output[n,f] equals Features[n,corner,f] for every f, where the
    corner is the one the indexing convention selects: among the corners
    0..3 of the face u = 0 and 4..7 of the face u = 1 the one whose weight a,
    b, c or d is 1, that is corner 4u + 2v + w. *)
Theorem corner_exactness (features : Tensor3 R) (points : Tensor2 R) (n f : Z)
    (u v w : bool) :
  forward_shapes features points ->
  fits_int (t3_size0 features) -> fits_int (t3_size2 features) ->
  (0 <= n < t3_size0 features)%Z -> (0 <= f < t3_size2 features)%Z ->
  (t2_data points n 0%Z + 1) / 2 = IZR (Z.b2z u) ->
  (t2_data points n 1%Z + 1) / 2 = IZR (Z.b2z v) ->
  (t2_data points n 2%Z + 1) / 2 = IZR (Z.b2z w) ->
  cell2 (trilinear_forward_cu features points) n f =
  Some (t3_data features n (4 * Z.b2z u + 2 * Z.b2z v + Z.b2z w)%Z f).
Proof.
  intros (Hc & Hp0 & Hp1) HN HF Hn Hf Hu Hv Hw.
  rewrite forward_cell; try assumption;
    [|unfold forward_shapes_suffice; lia].
  f_equal. unfold forward_value. simpl s_lit. simpl s_add. simpl s_div.
  cbv zeta. rewrite Hu, Hv, Hw.
  destruct u, v, w; simpl;
    match goal with
    | |- _ = t3_data _ _ ?corner _ =>
      let k := eval vm_compute in corner in change corner with k
    end; ring.
Qed.

End Exact.

(** For the point at the corner (u, v, w) = (1, 0, 1) the call yields the
    eight weights, and they sum to 1. *)
Lemma partition_of_unity_witness :
  (forall corner, 0 <= corner < 8 ->
     is_Some (cell2 (trilinear_forward_cu (corner_indicator 1 1 corner) corner_points)
                0 0)) /\
  sumZ 8 (fun corner =>
            default 0%R
              (cell2 (trilinear_forward_cu (corner_indicator 1 1 corner) corner_points)
                 0 0)) = 1%R.
Proof.
  pose proof (partition_of_unity ramp_features corner_points 0 0) as Hpu.
  cbv zeta in Hpu. destruct Hpu as (_ & _ & _ & _ & Hsum & Hin).
  destruct Hin as [_ Hall].
  - exact (proj1 ramp_shapes).
  - exact fits_int_1.
  - exact fits_int_1.
  - simpl. lia.
  - simpl. lia.
  - split; [exact Hall|]. apply Hsum. exact Hall.
Defined.

Lemma backward_is_gradient_witness :
  is_Some (cell3 (trilinear_backward_cu unit_grad ramp_features corner_points) 0 5 0) /\
  forall x,
    derivable_pt_lim
      (fun y => weighted_output unit_grad (set_feature ramp_features 0 5 0 y) corner_points)
      x (value3 (trilinear_backward_cu unit_grad ramp_features corner_points) 0 5 0).
Proof.
  destruct (backward_is_gradient unit_grad ramp_features corner_points
              ramp_shapes fits_int_1 fits_int_1) as [Hd _].
  apply Hd; simpl; lia.
Defined.

(** With 2^32 cubes the backward call writes no FeatureGradient[0,0,0] that
    could be a derivative. *)
Lemma backward_is_gradient_beyond_int :
  ~ (backward_shapes (T:=R) huge_grad huge_features huge_points ->
     forall n c f,
       0 <= n < t3_size0 (T:=R) huge_features -> 0 <= c < 8 ->
       0 <= f < t3_size2 (T:=R) huge_features ->
       is_Some (cell3 (trilinear_backward_cu (T:=R) huge_grad huge_features huge_points)
                  n c f) /\
       forall x,
         derivable_pt_lim
           (fun y => weighted_output huge_grad (set_feature huge_features n c f y)
                       huge_points)
           x (value3 (trilinear_backward_cu huge_grad huge_features huge_points) n c f)).
Proof.
  intros Hclaim.
  destruct (Hclaim huge_shapes 0 0 0) as [[v Hcell] _]; [simpl; lia|lia|simpl; lia|].
  rewrite huge_backward_returns in Hcell. discriminate Hcell.
Qed.

Lemma corner_exactness_witness :
  cell2 (trilinear_forward_cu ramp_features corner_points) 0 0 = Some 5%R.
Proof.
  apply (corner_exactness ramp_features corner_points 0 0 true false true).
  - exact (proj1 ramp_shapes).
  - exact fits_int_1.
  - exact fits_int_1.
  - simpl. lia.
  - simpl. lia.
  - simpl. lra.
  - simpl. lra.
  - simpl. lra.
Defined.

(** With 2^32 cubes, each queried at its corner (0, 0, 0), Output[0,0] is
    not the feature of corner 0: it is not written. *)
Lemma corner_exactness_beyond_int :
  ~ (forward_shapes (T:=R) huge_features huge_points ->
     0 <= 0 < t3_size0 (T:=R) huge_features ->
     0 <= 0 < t3_size2 (T:=R) huge_features ->
     ((t2_data (T:=R) huge_points 0 0 + 1) / 2 = IZR (Z.b2z false))%R ->
     ((t2_data (T:=R) huge_points 0 1 + 1) / 2 = IZR (Z.b2z false))%R ->
     ((t2_data (T:=R) huge_points 0 2 + 1) / 2 = IZR (Z.b2z false))%R ->
     cell2 (trilinear_forward_cu (T:=R) huge_features huge_points) 0 0 =
     Some (t3_data (T:=R) huge_features 0
             (4 * Z.b2z false + 2 * Z.b2z false + Z.b2z false) 0)).
Proof.
  intros Hclaim.
  assert (cell2 (trilinear_forward_cu (T:=R) huge_features huge_points) 0 0 =
          Some (t3_data (T:=R) huge_features 0
                  (4 * Z.b2z false + 2 * Z.b2z false + Z.b2z false) 0)) as Hcell.
  { apply Hclaim; [exact (proj1 huge_shapes)|simpl; lia|simpl; lia| | |];
      simpl; lra. }
  rewrite huge_forward_returns in Hcell. discriminate Hcell.
Qed.

(** ** C4 and C5: shapes and the launch configuration *)

Section Dispatch.

Context {T : Type} `{Scalar T}.

Lemma ceil_div_16 N : (N + 15) / 16 = ceil_div N 16.
Proof. unfold ceil_div. Z.div_mod_to_equations. lia. Qed.

(** C4, as the wrappers have it.  No shape is validated: a call is left by
    an exception before the launch exactly when features.size(0) or
    features.size(2), read as an [int], is negative, whatever the other
    extents are.  With N and F in the range of [int], a call whose corner
    axis has at least 8 entries, whose Points have at least N rows and 3
    columns and whose UpstreamGradient has at least N rows and F columns is
    dispatched and returns its tensor with every element written. *)
Theorem rejection_ignores_shapes
    (grad : Tensor2 T) (features : Tensor3 T) (points : Tensor2 T) :
  (trilinear_forward_cu features points = Threw <->
   to_int (t3_size0 features) < 0 \/ to_int (t3_size2 features) < 0) /\
  (trilinear_backward_cu grad features points = Threw <->
   to_int (t3_size0 features) < 0 \/ to_int (t3_size2 features) < 0) /\
  (fits_int (t3_size0 features) -> fits_int (t3_size2 features) ->
   forward_shapes_suffice features points ->
   forall n f, 0 <= n < t3_size0 features -> 0 <= f < t3_size2 features ->
     is_Some (cell2 (trilinear_forward_cu features points) n f)) /\
  (fits_int (t3_size0 features) -> fits_int (t3_size2 features) ->
   backward_shapes_suffice grad features points ->
   forall n c f, 0 <= n < t3_size0 features -> 0 <= c < 8 ->
     0 <= f < t3_size2 features ->
     is_Some (cell3 (trilinear_backward_cu grad features points) n c f)).
Proof.
  split; [|split; [|split]].
  - unfold trilinear_forward_cu, torch_empty2.
    destruct (Z.leb_spec 0 (to_int (t3_size0 features))),
             (Z.leb_spec 0 (to_int (t3_size2 features))); simpl;
      try (split; [intros _; lia|reflexivity]).
    cbv zeta. destruct (launch _ _ _); split; try discriminate; lia.
  - unfold trilinear_backward_cu, torch_empty3.
    destruct (Z.leb_spec 0 (to_int (t3_size0 features))),
             (Z.leb_spec 0 (to_int (t3_size2 features))); simpl;
      try (split; [intros _; lia|reflexivity]).
    cbv zeta. destruct (launch _ _ _); split; try discriminate; lia.
  - intros HN HF Hshape n f Hn Hf. rewrite forward_cell by assumption. eauto.
  - intros HN HF Hshape n c f Hn Hc Hf.
    destruct (backward_cell grad features points n c f HN HF Hshape Hn Hf Hc)
      as (wt & _ & ->). eauto.
Qed.

(** C5, for extents in the range of [int].  On a call in the shapes of the
    data model with N and F at most INT_MAX, the launch configuration tiles
    the index space N x F with ceil(N/16) x ceil(F/16) blocks of 16 x 16
    threads; every thread whose index pair falls outside [0,N) x [0,F)
    stores nothing; the launch runs to its end with no access outside an
    accessor, also when N or F is no multiple of 16; and every output
    element (n, f) inside is stored to by exactly one thread, once. *)
Theorem launch_tiles_index_space (features : Tensor3 T) (points : Tensor2 T) :
  forward_shapes features points ->
  fits_int (t3_size0 features) -> fits_int (t3_size2 features) ->
  launch_partitions features points.
Proof.
  intros (Hc & Hp0 & Hp1) HN HF.
  assert (forward_shapes_suffice features points) as Hshape
    by (unfold forward_shapes_suffice; lia).
  unfold launch_partitions. cbv zeta.
  rewrite (to_int_id _ HN), (to_int_id _ HF). split.
  { unfold tile_grid. rewrite !blocks_for_fits by assumption.
    now rewrite !ceil_div_16. }
  exists (MkBuffer2 (t3_size0 features) (t3_size2 features) ∅),
         (tiled_log (forward_stores features points)
            (t3_size0 features) (t3_size2 features)).
  split; [now apply torch_empty2_fits|].
  split; [now apply forward_launch_tiled|].
  split; [now apply forward_cu_returns|].
  split.
  - intros b t _ Hout.
    apply forward_kernel_outside; auto using fits_int_extent.
  - intros n f Hn Hf.
    exists (owner n f), (forward_value features points n f).
    split; [now apply owner_in_grid|]. split; [|split].
    + rewrite forward_kernel_tiled by (try assumption; now apply owner_in_grid).
      unfold owner. simpl. rewrite <- !Z.div_mod by lia.
      rewrite decide_True by lia. reflexivity.
    + intros [b t] Hin Hne. eexists. split.
      * simpl. now apply forward_kernel_tiled.
      * destruct (decide _) as [_|]; [|reflexivity].
        unfold forward_stores, stores_to.
        rewrite filter_cons_False; [reflexivity|]. simpl. intros [= Hn' Hf'].
        apply Hne. now apply (owner_unique _ _ HN HF).
    + now apply forward_stores_to.
Qed.

End Dispatch.

(** A call with 9 corners per cube and 4 columns of points is not refused:
    it returns Output[0,0], here the feature of corner 7. *)
Lemma wide_call_not_rejected :
  ~ (shape_mismatch_forward wide_features wide_points ->
     trilinear_forward_cu wide_features wide_points = Threw).
Proof.
  intros Hclaim.
  assert (shape_mismatch_forward wide_features wide_points) as Hm
    by (left; simpl; discriminate).
  specialize (Hclaim Hm). vm_compute in Hclaim. discriminate.
Qed.

Lemma wide_call_returns :
  Qred <$> cell2 (trilinear_forward_cu wide_features wide_points) 0 0 = Some 7%Q.
Proof. vm_compute. reflexivity. Qed.

(** So is a backward call whose UpstreamGradient has 2 columns for F = 1. *)
Example wide_backward_returns :
  shape_mismatch_backward wide_grad wide_features wide_points /\
  Qred <$> cell3 (trilinear_backward_cu wide_grad wide_features wide_points) 0 7 0
  = Some 1%Q.
Proof. split; [left; left; simpl; discriminate|vm_compute; reflexivity]. Qed.

(** With 4 corners per cube the call is not refused either: the thread of
    Output[0,0] reads features[0][4][0], outside the accessor. *)
Example narrow_call_undefined :
  trilinear_forward_cu narrow_features wide_points = Undefined.
Proof. vm_compute. reflexivity. Qed.

Lemma rejection_ignores_shapes_witness :
  is_Some (cell2 (trilinear_forward_cu wide_features wide_points) 0 0).
Proof.
  destruct (rejection_ignores_shapes wide_points wide_features wide_points)
    as (_ & _ & Hfwd & _).
  apply Hfwd.
  - exact fits_int_1.
  - exact fits_int_1.
  - unfold forward_shapes_suffice. simpl. lia.
  - simpl. lia.
  - simpl. lia.
Defined.

Lemma launch_tiles_index_space_witness :
  launch_partitions scenario_features scenario_points.
Proof.
  apply launch_tiles_index_space.
  - exact (proj1 scenario_shapes).
  - exact fits_int_1.
  - exact fits_int_1.
Defined.

(** With 2^32 cubes the grid has no block where ceil(N/16) = 2^28 are due,
    and no element of the index space is written. *)
Lemma huge_launch_fails : ~ launch_partitions (T:=Q) huge_features huge_points.
Proof.
  intros (Hgrid & _). vm_compute in Hgrid. discriminate Hgrid.
Qed.

(** ** C8: linearity *)

Section Linearity.

Local Open Scope R_scope.

Lemma forward_value_scale (k : R) (X : Tensor3 R) (points : Tensor2 R) n f :
  forward_value (scale_cube k n X) points n f = k * forward_value X points n f.
Proof.
  unfold forward_value, scale_cube. simpl.
  rewrite !decide_True by reflexivity. ring.
Qed.

Lemma forward_value_combine (k1 k2 : R) (X Y : Tensor3 R) (points : Tensor2 R) n f :
  forward_value (combine_features k1 X k2 Y) points n f =
  k1 * forward_value X points n f + k2 * forward_value Y points n f.
Proof. unfold forward_value, combine_features. simpl. ring. Qed.

(** C8. Linearity in Features, over the real numbers and for every call:
    for fixed Points, scaling the eight corner feature vectors of cube n by k
    scales the output row of that cube by k,
    forward(k * Features_n, Points)[n,f] = k * forward(Features, Points)[n,f],
    and the output of k1*X + k2*Y is k1*Output(X) + k2*Output(Y) for X, Y of
    one shape.  Where a call yields no Output[n,f], neither do the others;
    on the shapes of the data model with N and F at most INT_MAX and (n, f)
    inside the extents, every call yields it. *)
Theorem forward_linear (X Y : Tensor3 R) (points : Tensor2 R) (k1 k2 : R) (n f : Z) :
  cell2 (trilinear_forward_cu (scale_cube k1 n X) points) n f
    = Rmult k1 <$> cell2 (trilinear_forward_cu X points) n f /\
  (same_shape3 X Y ->
   cell2 (trilinear_forward_cu (combine_features k1 X k2 Y) points) n f
     = match cell2 (trilinear_forward_cu X points) n f,
             cell2 (trilinear_forward_cu Y points) n f with
       | Some x, Some y => Some (k1 * x + k2 * y)
       | _, _ => None
       end) /\
  (forward_shapes X points -> fits_int (t3_size0 X) -> fits_int (t3_size2 X) ->
   (0 <= n < t3_size0 X)%Z -> (0 <= f < t3_size2 X)%Z ->
   is_Some (cell2 (trilinear_forward_cu X points) n f)).
Proof.
  assert (same_shape3 X (scale_cube k1 n X)) as Hscale by (repeat split).
  assert (same_shape3 X (combine_features k1 X k2 Y)) as Hcomb by (repeat split).
  assert (same_shape2 points points) as Hpts by (repeat split).
  pose proof (forward_cell_defined X (scale_cube k1 n X) points points n f Hscale Hpts)
    as Hd1.
  pose proof (forward_cell_defined X (combine_features k1 X k2 Y) points points n f
                Hcomb Hpts) as Hd2.
  split; [|split].
  - destruct (cell2 (trilinear_forward_cu X points) n f) as [x|] eqn:Ex.
    + apply forward_cell_value in Ex as ->.
      destruct Hd1 as [Hd1 _]. destruct Hd1 as [s Es]; [eauto|].
      rewrite Es. apply forward_cell_value in Es as ->.
      now rewrite forward_value_scale.
    + destruct (cell2 (trilinear_forward_cu (scale_cube k1 n X) points) n f) eqn:Es;
        [|reflexivity].
      destruct Hd1 as [_ Hd1]. destruct Hd1 as [? [=]]. eauto.
  - intros HXY.
    pose proof (forward_cell_defined X Y points points n f HXY Hpts) as Hd3.
    destruct (cell2 (trilinear_forward_cu X points) n f) as [x|] eqn:Ex.
    + apply forward_cell_value in Ex as ->.
      destruct Hd2 as [Hd2 _]. destruct Hd2 as [c Ec]; [eauto|].
      destruct Hd3 as [Hd3 _]. destruct Hd3 as [y Ey]; [eauto|].
      rewrite Ec, Ey.
      apply forward_cell_value in Ec as ->. apply forward_cell_value in Ey as ->.
      now rewrite forward_value_combine.
    + destruct (cell2 (trilinear_forward_cu (combine_features k1 X k2 Y) points) n f)
        eqn:Ec; [|reflexivity].
      destruct Hd2 as [_ Hd2]. destruct Hd2 as [? [=]]. eauto.
  - intros (Hc & Hp0 & Hp1) HN HF Hn Hf.
    rewrite forward_cell; try assumption; [eauto|].
    unfold forward_shapes_suffice. lia.
Qed.

End Linearity.

Lemma forward_linear_witness :
  cell2 (trilinear_forward_cu (scale_cube 2 0 ramp_features) corner_points) 0 0
    = Rmult 2 <$> cell2 (trilinear_forward_cu ramp_features corner_points) 0 0 /\
  cell2 (trilinear_forward_cu (combine_features 2 ramp_features 3 ramp_features)
           corner_points) 0 0
    = match cell2 (trilinear_forward_cu ramp_features corner_points) 0 0,
            cell2 (trilinear_forward_cu ramp_features corner_points) 0 0 with
      | Some x, Some y => Some (2 * x + 3 * y)%R
      | _, _ => None
      end.
Proof.
  destruct (forward_linear ramp_features ramp_features corner_points 2 3 0 0)
    as (Hscale & Hcombine & _).
  split; [exact Hscale|]. apply Hcombine. repeat split.
Defined.

(** ** C9 and C10: what a result depends on *)

Section Independence.

Context {T : Type} `{Scalar T}.

(** C9. Cross-cube independence: two runs on inputs of one shape that agree
    on Features[m], Points[m] and, for the backward operation,
    UpstreamGradient[m], and differ in any way on the other cubes, end the
    same way and give the same Output[m,:] and the same
    FeatureGradient[m,:,:]: the data of a cube n <> m never reaches the
    results of cube m. *)
Theorem cross_cube_independence
    (features features' : Tensor3 T) (points points' grad grad' : Tensor2 T) (m : Z) :
  same_shape3 features features' -> same_shape2 points points' ->
  same_shape2 grad grad' ->
  agree_on_cube3 m features features' -> agree_on_cube2 m points points' ->
  agree_on_cube2 m grad grad' ->
  outcome_rel (same_row2 m)
    (trilinear_forward_cu features points) (trilinear_forward_cu features' points') /\
  outcome_rel (same_row3 m)
    (trilinear_backward_cu grad features points)
    (trilinear_backward_cu grad' features' points').
Proof.
  intros Hfs Hps Hgs Hfeat Hpts Hgrad.
  pose proof Hfs as (Hs0 & Hs1 & Hs2). split.
  - unfold trilinear_forward_cu. rewrite <- Hs0, <- Hs2.
    destruct (torch_empty2 _ _) as [out|]; [|constructor].
    cbv zeta.
    destruct (launch_rel (fun kv : Z * Z * T => fst (fst kv) = m)
                (trilinear_forward_kernel features points out)
                (trilinear_forward_kernel features' points' out)
                (Dim3 (blocks_for (to_int (t3_size0 features)) (dx (Dim3 16 16 1)))
                      (blocks_for (to_int (t3_size2 features)) (dy (Dim3 16 16 1))) 1)
                (Dim3 16 16 1)) as [l1 l2 Hl|].
    + intros b t. now apply forward_kernel_rel.
    + constructor. repeat split. intros f. simpl. now apply apply_stores_row2.
    + constructor.
  - unfold trilinear_backward_cu. rewrite <- Hs0, <- Hs2.
    destruct (torch_empty3 _ _ _) as [out|]; [|constructor].
    cbv zeta.
    destruct (launch_rel (fun kv : Z * Z * Z * T => fst (fst (fst kv)) = m)
                (trilinear_backward_kernel features points grad out)
                (trilinear_backward_kernel features' points' grad' out)
                (Dim3 (blocks_for (to_int (t3_size0 features)) (dx (Dim3 16 16 1)))
                      (blocks_for (to_int (t3_size2 features)) (dy (Dim3 16 16 1))) 1)
                (Dim3 16 16 1)) as [l1 l2 Hl|].
    + intros b t. now apply backward_kernel_rel.
    + constructor. repeat split. intros c f. simpl. now apply apply_stores_row3.
    + constructor.
Qed.

(** C10. The result of the backward operation does not depend on the values
    stored in Features, only on its shape: for two Features tensors of one
    shape and the same Points and UpstreamGradient the backward calls end
    the same way with the same FeatureGradient. *)
Theorem backward_ignores_feature_values
    (grad : Tensor2 T) (features features' : Tensor3 T) (points : Tensor2 T) :
  same_shape3 features features' ->
  trilinear_backward_cu grad features points =
  trilinear_backward_cu grad features' points.
Proof.
  intros (Hs0 & Hs1 & Hs2).
  destruct features as [s0 s1 s2 d], features' as [s0' s1' s2' d'].
  simpl in *. subst. reflexivity.
Qed.

End Independence.

Lemma cross_cube_independence_witness :
  outcome_rel (same_row2 0)
    (trilinear_forward_cu (pair_features 0) (pair_points 0))
    (trilinear_forward_cu (pair_features 1) (pair_points 1)) /\
  outcome_rel (same_row3 0)
    (trilinear_backward_cu (pair_grad 0) (pair_features 0) (pair_points 0))
    (trilinear_backward_cu (pair_grad 1) (pair_features 1) (pair_points 1)).
Proof.
  apply cross_cube_independence.
  - repeat split.
  - repeat split.
  - repeat split.
  - intros c f. reflexivity.
  - intros j. reflexivity.
  - intros j. reflexivity.
Defined.

Lemma backward_ignores_feature_values_witness :
  trilinear_backward_cu (pair_grad 0) (pair_features 0) (pair_points 0) =
  trilinear_backward_cu (pair_grad 0) (pair_features 1) (pair_points 0).
Proof.
  apply backward_ignores_feature_values. repeat split.
Defined.

(** ** The scenario of the specification

    N = 1, F = 1, Features[0] = [0,0,0,0,1,1,1,1], Points[0] = [0,-1,-1]:
    Output[0,0] = 1/2, and with UpstreamGradient[0,0] = 2 the
    FeatureGradient[0] is [1,0,0,0,1,0,0,0]. *)

Example scenario_forward :
  Qred <$> cell2 (trilinear_forward_cu scenario_features scenario_points) 0 0
  = Some (1 # 2)%Q.
Proof. vm_compute. reflexivity. Qed.

Example scenario_backward :
  (fun c => Qred <$> cell3 (trilinear_backward_cu scenario_grad scenario_features
                              scenario_points) 0 c 0) <$> seqZ 0 8
  = [Some 1%Q; Some 0%Q; Some 0%Q; Some 0%Q; Some 1%Q; Some 0%Q; Some 0%Q; Some 0%Q].
Proof. vm_compute. reflexivity. Qed.

(** A tile that is not full: with N = 17 and F = 3 the grid has 2 x 1 blocks,
    512 threads, of which 51 store. *)
Example partial_tiles :
  let features : Tensor3 Q := MkTensor3 17 8 3 (fun n c f => inject_Z (n + c + f)) in
  let points : Tensor2 Q := MkTensor2 17 3 (fun _ _ => 0%Q) in
  tile_grid 17 3 = Dim3 2 1 1 /\
  length (grid_threads (tile_grid 17 3) tile_block) = 512%nat /\
  match trilinear_forward_cu features points with
  | Returned out => size (b2_cells out) = 51%nat
  | _ => False
  end.
Proof. vm_compute. repeat split. Qed.


(** * Further properties of the kernels and the wrappers *)

(** ** Inputs of the examples *)

Lemma fits_int_0 : fits_int 0.
Proof. unfold fits_int, INT_MAX. lia. Defined.

Lemma fits_int_5 : fits_int 5.
Proof. unfold fits_int, INT_MAX. lia. Defined.

Lemma ramp_suffices : forward_shapes_suffice ramp_features corner_points.
Proof. unfold forward_shapes_suffice. simpl. lia. Defined.

Lemma ramp_backward_suffices :
  backward_shapes_suffice unit_grad ramp_features corner_points.
Proof. unfold backward_shapes_suffice. simpl. lia. Defined.

Lemma scenario_call_ok : backward_call_ok scenario_grad scenario_features scenario_points.
Proof.
  apply backward_call_ok_intro; [exact scenario_shapes|exact fits_int_1|exact fits_int_1].
Defined.

(** ** The accesses of a unit of work *)

Section Accesses.

Context {T : Type} `{Scalar T}.

Lemma read2_Some_in (t : Tensor2 T) i j a :
  read2 t i j = Some a -> 0 <= i < t2_size0 t /\ 0 <= j < t2_size1 t.
Proof.
  unfold read2, in_extent. intros Hr.
  destruct (Z.leb_spec 0 i), (Z.ltb_spec i (t2_size0 t)),
           (Z.leb_spec 0 j), (Z.ltb_spec j (t2_size1 t)); try discriminate. lia.
Qed.

Lemma read3_Some_in (t : Tensor3 T) i j k a :
  read3 t i j k = Some a ->
  0 <= i < t3_size0 t /\ 0 <= j < t3_size1 t /\ 0 <= k < t3_size2 t.
Proof.
  unfold read3, in_extent. intros Hr.
  destruct (Z.leb_spec 0 i), (Z.ltb_spec i (t3_size0 t)),
           (Z.leb_spec 0 j), (Z.ltb_spec j (t3_size1 t)),
           (Z.leb_spec 0 k), (Z.ltb_spec k (t3_size2 t)); try discriminate. lia.
Qed.

Lemma store2_Some_in (b : Buffer2 T) i j v l :
  store2 b i j v = Some l -> 0 <= i < b2_size0 b /\ 0 <= j < b2_size1 b.
Proof.
  unfold store2, in_extent. intros Hr.
  destruct (Z.leb_spec 0 i), (Z.ltb_spec i (b2_size0 b)),
           (Z.leb_spec 0 j), (Z.ltb_spec j (b2_size1 b)); try discriminate. lia.
Qed.

Lemma store3_Some_in (b : Buffer3 T) i j k v l :
  store3 b i j k v = Some l ->
  0 <= i < b3_size0 b /\ 0 <= j < b3_size1 b /\ 0 <= k < b3_size2 b.
Proof.
  unfold store3, in_extent. intros Hr.
  destruct (Z.leb_spec 0 i), (Z.ltb_spec i (b3_size0 b)),
           (Z.leb_spec 0 j), (Z.ltb_spec j (b3_size1 b)),
           (Z.leb_spec 0 k), (Z.ltb_spec k (b3_size2 b)); try discriminate. lia.
Qed.

(** A forward thread that passes the guard and runs to its end has read the
    third coordinate of its point and the corner 7 of its cube, and has
    stored inside the output. *)
Lemma forward_kernel_accesses features points output bd b t l :
  let n := to_int (to_uint (to_uint (dx bd * dx b) + dx t)) in
  let f := to_int (to_uint (to_uint (dy bd * dy b) + dy t)) in
  is_extent (t3_size0 features) -> is_extent (t3_size2 features) ->
  0 <= n < t3_size0 features -> 0 <= f < t3_size2 features ->
  trilinear_forward_kernel features points output bd b t = Some l ->
  n < t2_size0 points /\ 3 <= t2_size1 points /\ 8 <= t3_size1 features /\
  n < b2_size0 output /\ f < b2_size1 output.
Proof.
  intros n f HN HF Hn Hf.
  destruct (guard_true _ _ _ _ HN HF Hn Hf) as (Hg & Hsn & Hsf).
  unfold trilinear_forward_kernel. cbv zeta. fold n f in Hg, Hsn, Hsf |- *.
  rewrite Hg, Hsn, Hsf. intros Hk.
  do 2 (apply bind_Some in Hk as (? & _ & Hk)).
  apply bind_Some in Hk as (? & Hp & Hk). apply read2_Some_in in Hp.
  do 7 (apply bind_Some in Hk as (? & _ & Hk)).
  apply bind_Some in Hk as (? & Hc & Hk). apply read3_Some_in in Hc.
  apply store2_Some_in in Hk. lia.
Qed.

(** A backward thread that passes the guard and runs to its end has read
    the third coordinate of its point and its element of the upstream
    gradient, and has stored to the corner 7 inside the result. *)
Lemma backward_kernel_accesses features points grad output bd b t l :
  let n := to_int (to_uint (to_uint (dx bd * dx b) + dx t)) in
  let f := to_int (to_uint (to_uint (dy bd * dy b) + dy t)) in
  is_extent (t3_size0 features) -> is_extent (t3_size2 features) ->
  0 <= n < t3_size0 features -> 0 <= f < t3_size2 features ->
  trilinear_backward_kernel features points grad output bd b t = Some l ->
  n < t2_size0 points /\ 3 <= t2_size1 points /\
  n < t2_size0 grad /\ f < t2_size1 grad /\
  n < b3_size0 output /\ 8 <= b3_size1 output /\ f < b3_size2 output.
Proof.
  intros n f HN HF Hn Hf.
  destruct (guard_true _ _ _ _ HN HF Hn Hf) as (Hg & Hsn & Hsf).
  unfold trilinear_backward_kernel. cbv zeta. fold n f in Hg, Hsn, Hsf |- *.
  rewrite Hg, Hsn, Hsf. intros Hk.
  do 2 (apply bind_Some in Hk as (? & _ & Hk)).
  apply bind_Some in Hk as (? & Hp & Hk). apply read2_Some_in in Hp.
  apply bind_Some in Hk as (? & Hgr & Hk). apply read2_Some_in in Hgr.
  apply bind_Some in Hk as (? & _ & Hk).
  do 6 (apply bind_Some in Hk as (? & _ & Hk); apply bind_Some in Hk as (? & _ & Hk)).
  apply bind_Some in Hk as (? & _ & Hk).
  apply bind_Some in Hk as (? & Hs & Hk). apply store3_Some_in in Hs. lia.
Qed.

End Accesses.

(** ** How a call ends *)

Section Outcomes.

Context {T : Type} `{Scalar T}.

(** The owner of an index pair derives that pair. *)
Lemma owner_index N F n f :
  fits_int N -> fits_int F ->
  owner n f ∈ grid_threads (tile_grid N F) tile_block ->
  0 <= n -> 0 <= f ->
  to_int (to_uint (to_uint (dx tile_block * dx (fst (owner n f))) + dx (snd (owner n f))))
    = n /\
  to_int (to_uint (to_uint (dy tile_block * dy (fst (owner n f))) + dy (snd (owner n f))))
    = f.
Proof.
  intros HN HF Hin Hn Hf.
  apply tile_grid_elem in Hin as ((Hbx & Hby & _) & (Htx & Hty & _)); try assumption.
  unfold owner in *. simpl in *.
  destruct (thread_index_fits _ _ _ HN Hbx Htx) as [-> _].
  destruct (thread_index_fits _ _ _ HF Hby Hty) as [-> _].
  rewrite <- !Z.div_mod by lia. split; reflexivity.
Qed.

(** A grid with no block along one of its axes has no thread. *)
Lemma grid_threads_empty nb nt :
  dx nb = 0 \/ dy nb = 0 -> grid_threads nb nt = [].
Proof.
  intros Hz. apply elem_of_nil_inv. intros [b t] Hin.
  apply elem_of_grid_threads in Hin as [Hb _].
  apply elem_of_block_indices in Hb. lia.
Qed.

Lemma launch_empty {W} (kernel : dim3 -> dim3 -> dim3 -> option (list W)) nb nt :
  dx nb = 0 \/ dy nb = 0 -> launch kernel nb nt = Some [].
Proof.
  intros Hz. unfold launch, run_threads. now rewrite grid_threads_empty.
Qed.

(** The wrappers once [torch::empty] has accepted the two extents. *)
Lemma forward_cu_unfold features points :
  fits_int (to_int (t3_size0 features)) -> fits_int (to_int (t3_size2 features)) ->
  trilinear_forward_cu features points =
  let N := to_int (t3_size0 features) in
  let F := to_int (t3_size2 features) in
  match launch (trilinear_forward_kernel features points (MkBuffer2 N F ∅))
               (tile_grid N F) tile_block with
  | None => Undefined
  | Some log => Returned (MkBuffer2 N F (apply_stores log ∅))
  end.
Proof.
  intros HN HF. unfold trilinear_forward_cu.
  rewrite (torch_empty2_fits _ _ HN HF). reflexivity.
Qed.

Lemma backward_cu_unfold grad features points :
  fits_int (to_int (t3_size0 features)) -> fits_int (to_int (t3_size2 features)) ->
  trilinear_backward_cu grad features points =
  let N := to_int (t3_size0 features) in
  let F := to_int (t3_size2 features) in
  match launch (trilinear_backward_kernel features points grad (MkBuffer3 N 8 F ∅))
               (tile_grid N F) tile_block with
  | None => Undefined
  | Some log => Returned (MkBuffer3 N 8 F (apply_stores log ∅))
  end.
Proof.
  intros HN HF. unfold trilinear_backward_cu.
  rewrite (torch_empty3_fits _ _ HN HF). reflexivity.
Qed.

(** A forward call whose shapes do not suffice is undefined: the thread of
    the last cube leaves an accessor. *)
Lemma forward_cu_undefined features points :
  fits_int (t3_size0 features) -> fits_int (t3_size2 features) ->
  0 < t3_size0 features -> 0 < t3_size2 features ->
  ~ forward_shapes_suffice features points ->
  trilinear_forward_cu features points = Undefined.
Proof.
  intros HN HF HN0 HF0 Hshape.
  rewrite forward_cu_unfold by (rewrite to_int_id; assumption). cbv zeta.
  rewrite (to_int_id _ HN), (to_int_id _ HF).
  pose proof (owner_in_grid _ _ HN HF (t3_size0 features - 1) 0
                ltac:(lia) ltac:(lia)) as Hin.
  destruct (owner_index _ _ _ _ HN HF Hin ltac:(lia) ltac:(lia)) as [En Ef].
  rewrite (launch_None _ _ _ (fst (owner (t3_size0 features - 1) 0))
             (snd (owner (t3_size0 features - 1) 0))); [reflexivity|exact Hin|].
  destruct (trilinear_forward_kernel _ _ _ _ _ _) as [l|] eqn:Ek; [|reflexivity].
  exfalso. apply forward_kernel_accesses in Ek; auto using fits_int_extent;
    rewrite ?En, ?Ef; [|lia|lia].
  apply Hshape. unfold forward_shapes_suffice. lia.
Qed.

Lemma backward_cu_undefined grad features points :
  fits_int (t3_size0 features) -> fits_int (t3_size2 features) ->
  0 < t3_size0 features -> 0 < t3_size2 features ->
  ~ backward_shapes_suffice grad features points ->
  trilinear_backward_cu grad features points = Undefined.
Proof.
  intros HN HF HN0 HF0 Hshape.
  rewrite backward_cu_unfold by (rewrite to_int_id; assumption). cbv zeta.
  rewrite (to_int_id _ HN), (to_int_id _ HF).
  pose proof (owner_in_grid _ _ HN HF (t3_size0 features - 1) (t3_size2 features - 1)
                ltac:(lia) ltac:(lia)) as Hin.
  destruct (owner_index _ _ _ _ HN HF Hin ltac:(lia) ltac:(lia)) as [En Ef].
  rewrite (launch_None _ _ _
             (fst (owner (t3_size0 features - 1) (t3_size2 features - 1)))
             (snd (owner (t3_size0 features - 1) (t3_size2 features - 1))));
    [reflexivity|exact Hin|].
  destruct (trilinear_backward_kernel _ _ _ _ _ _ _) as [l|] eqn:Ek; [|reflexivity].
  exfalso. apply backward_kernel_accesses in Ek; auto using fits_int_extent;
    rewrite ?En, ?Ef; [|lia|lia].
  apply Hshape. unfold backward_shapes_suffice. lia.
Qed.

(** X1. How a forward call ends is decided by the shapes alone.  With
    0 < N, F <= INT_MAX the call returns an Output of shape (N, F) exactly
    when the corner axis of Features has at least 8 entries and Points has
    at least N rows and at least 3 columns; with any other shapes some unit
    of work indexes an accessor outside its extents and the call is
    undefined.  No call is refused. *)
Theorem forward_outcome_by_shapes (features : Tensor3 T) (points : Tensor2 T) :
  fits_int (t3_size0 features) -> fits_int (t3_size2 features) ->
  0 < t3_size0 features -> 0 < t3_size2 features ->
  ((exists cells,
      trilinear_forward_cu features points =
      Returned (MkBuffer2 (t3_size0 features) (t3_size2 features) cells))
   <-> forward_shapes_suffice features points) /\
  (trilinear_forward_cu features points = Undefined
   <-> ~ forward_shapes_suffice features points).
Proof.
  intros HN HF HN0 HF0.
  assert (forward_shapes_suffice features points \/
          ~ forward_shapes_suffice features points) as [Hs|Hs]
    by (unfold forward_shapes_suffice; lia).
  - pose proof (forward_cu_returns _ _ HN HF Hs) as Hr. split; split.
    + intros _. exact Hs.
    + intros _. eauto.
    + rewrite Hr. discriminate.
    + intros Hn. contradiction.
  - pose proof (forward_cu_undefined _ _ HN HF HN0 HF0 Hs) as Hr. split; split.
    + rewrite Hr. intros [cells [=]].
    + intros Hn. contradiction.
    + intros _. exact Hs.
    + intros _. exact Hr.
Qed.

(** X2. How a backward call ends is decided by the shapes alone.  With
    0 < N, F <= INT_MAX the call returns a FeatureGradient of shape
    (N, 8, F) exactly when Points has at least N rows and at least 3 columns
    and UpstreamGradient has at least N rows and at least F columns; with
    any other shapes it is undefined.  The corner axis of Features plays no
    part: the result has 8 corners whatever Features has. *)
Theorem backward_outcome_by_shapes
    (grad : Tensor2 T) (features : Tensor3 T) (points : Tensor2 T) :
  fits_int (t3_size0 features) -> fits_int (t3_size2 features) ->
  0 < t3_size0 features -> 0 < t3_size2 features ->
  ((exists cells,
      trilinear_backward_cu grad features points =
      Returned (MkBuffer3 (t3_size0 features) 8 (t3_size2 features) cells))
   <-> backward_shapes_suffice grad features points) /\
  (trilinear_backward_cu grad features points = Undefined
   <-> ~ backward_shapes_suffice grad features points).
Proof.
  intros HN HF HN0 HF0.
  assert (backward_shapes_suffice grad features points \/
          ~ backward_shapes_suffice grad features points) as [Hs|Hs]
    by (unfold backward_shapes_suffice; lia).
  - pose proof (backward_cu_returns _ _ _ HN HF Hs) as Hr. split; split.
    + intros _. exact Hs.
    + intros _. eauto.
    + rewrite Hr. discriminate.
    + intros Hn. contradiction.
  - pose proof (backward_cu_undefined _ _ _ HN HF HN0 HF0 Hs) as Hr. split; split.
    + rewrite Hr. intros [cells [=]].
    + intros Hn. contradiction.
    + intros _. exact Hs.
    + intros _. exact Hr.
Qed.

(** X3. Empty input.  When Features has no cube or no channel (N = 0 or
    F = 0, the other extent at most INT_MAX) the grid has no block along
    that axis, no unit of work runs, and both wrappers return their tensor,
    of shape (N, F) and (N, 8, F), with no element written, whatever Points
    and UpstreamGradient are. *)
Theorem empty_input_returns_empty
    (grad : Tensor2 T) (features : Tensor3 T) (points : Tensor2 T) :
  fits_int (t3_size0 features) -> fits_int (t3_size2 features) ->
  t3_size0 features = 0 \/ t3_size2 features = 0 ->
  trilinear_forward_cu features points =
    Returned (MkBuffer2 (t3_size0 features) (t3_size2 features) ∅) /\
  trilinear_backward_cu grad features points =
    Returned (MkBuffer3 (t3_size0 features) 8 (t3_size2 features) ∅).
Proof.
  intros HN HF Hz.
  assert (dx (tile_grid (t3_size0 features) (t3_size2 features)) = 0 \/
          dy (tile_grid (t3_size0 features) (t3_size2 features)) = 0) as Hgrid.
  { unfold tile_grid. simpl. destruct Hz as [-> | ->]; [left|right]; reflexivity. }
  split.
  - rewrite forward_cu_unfold by (rewrite to_int_id; assumption). cbv zeta.
    rewrite (to_int_id _ HN), (to_int_id _ HF).
    now rewrite launch_empty.
  - rewrite backward_cu_unfold by (rewrite to_int_id; assumption). cbv zeta.
    rewrite (to_int_id _ HN), (to_int_id _ HF).
    now rewrite launch_empty.
Qed.

(** X4. The guard of the kernels compares with features.size(0), the
    allocation and the grid use the [int] N.  When features.size(0) exceeds
    what the [int] holds, so that N is not negative but smaller than
    features.size(0), and N is no multiple of 16, the thread with n = N
    passes the guard and stores past the last row of the result: both calls
    are undefined. *)
Theorem rows_beyond_int_undefined
    (grad : Tensor2 T) (features : Tensor3 T) (points : Tensor2 T) :
  is_extent (t3_size0 features) ->
  fits_int (t3_size2 features) -> 0 < t3_size2 features ->
  0 <= to_int (t3_size0 features) < t3_size0 features ->
  to_int (t3_size0 features) mod 16 <> 0 ->
  trilinear_forward_cu features points = Undefined /\
  trilinear_backward_cu grad features points = Undefined.
Proof.
  intros HN HF HF0 Htrunc Hpart.
  pose proof (to_int_range (t3_size0 features)) as Hrange.
  set (N' := to_int (t3_size0 features)) in *.
  assert (fits_int N') as HN' by (unfold fits_int, INT_MAX; lia).
  set (b := Dim3 (N' / 16) 0 0). set (t := Dim3 (N' mod 16) 0 0).
  assert ((b, t) ∈ grid_threads (tile_grid N' (t3_size2 features)) tile_block) as Hin.
  { apply tile_grid_elem; try assumption. simpl.
    pose proof (Z.mod_pos_bound N' 16 ltac:(lia)).
    pose proof (Z.div_mod N' 16 ltac:(lia)).
    pose proof (Z.div_mod (N' + 15) 16 ltac:(lia)).
    pose proof (Z.mod_pos_bound (N' + 15) 16 ltac:(lia)).
    pose proof (Z.div_mod (t3_size2 features + 15) 16 ltac:(lia)).
    pose proof (Z.mod_pos_bound (t3_size2 features + 15) 16 ltac:(lia)).
    lia. }
  assert (to_int (to_uint (to_uint (dx tile_block * dx b) + dx t)) = N' /\
          to_int (to_uint (to_uint (dy tile_block * dy b) + dy t)) = 0) as [En Ef].
  { apply tile_grid_elem in Hin as ((Hbx & Hby & _) & (Htx & Hty & _)); try assumption.
    simpl in *.
    destruct (thread_index_fits _ _ _ HN' Hbx Htx) as [-> _].
    rewrite <- Z.div_mod by lia. split; reflexivity. }
  split.
  - rewrite forward_cu_unfold by (fold N'; rewrite ?(to_int_id _ HF); assumption).
    cbv zeta. fold N'. rewrite (to_int_id _ HF).
    rewrite (launch_None _ _ _ b t); [reflexivity|exact Hin|].
    destruct (trilinear_forward_kernel _ _ _ _ _ _) as [l|] eqn:Ek; [|reflexivity].
    exfalso. apply forward_kernel_accesses in Ek; auto using fits_int_extent;
      rewrite ?En, ?Ef; simpl in *; lia.
  - rewrite backward_cu_unfold by (fold N'; rewrite ?(to_int_id _ HF); assumption).
    cbv zeta. fold N'. rewrite (to_int_id _ HF).
    rewrite (launch_None _ _ _ b t); [reflexivity|exact Hin|].
    destruct (trilinear_backward_kernel _ _ _ _ _ _ _) as [l|] eqn:Ek; [|reflexivity].
    exfalso. apply backward_kernel_accesses in Ek; auto using fits_int_extent;
      rewrite ?En, ?Ef; simpl in *; lia.
Qed.

End Outcomes.

(** With 4 corners per cube the forward call is undefined. *)
Lemma forward_outcome_by_shapes_witness :
  trilinear_forward_cu narrow_features wide_points = Undefined.
Proof.
  destruct (forward_outcome_by_shapes narrow_features wide_points) as [_ [_ Hu]].
  - exact fits_int_1.
  - exact fits_int_1.
  - simpl. lia.
  - simpl. lia.
  - apply Hu. unfold forward_shapes_suffice. simpl. lia.
Defined.

(** With 4 corners per cube the backward call returns 8 corners. *)
Lemma backward_outcome_by_shapes_witness :
  exists cells,
    trilinear_backward_cu wide_grad narrow_features wide_points =
    Returned (MkBuffer3 1 8 1 cells).
Proof.
  destruct (backward_outcome_by_shapes wide_grad narrow_features wide_points)
    as [[_ Hr] _].
  - exact fits_int_1.
  - exact fits_int_1.
  - simpl. lia.
  - simpl. lia.
  - apply Hr. unfold backward_shapes_suffice. simpl. lia.
Defined.

Lemma empty_input_returns_empty_witness :
  trilinear_forward_cu empty_features no_points = Returned (MkBuffer2 0 5 ∅) /\
  trilinear_backward_cu no_points empty_features no_points
    = Returned (MkBuffer3 0 8 5 ∅).
Proof.
  apply (empty_input_returns_empty no_points empty_features no_points).
  - exact fits_int_0.
  - exact fits_int_5.
  - left. reflexivity.
Defined.

(** With 2^32 + 1 cubes the result has one row and the thread of cube 1
    stores to its row 1. *)
Lemma rows_beyond_int_undefined_witness :
  trilinear_forward_cu wrapped_features wrapped_points = Undefined /\
  trilinear_backward_cu wrapped_grad wrapped_features wrapped_points = Undefined.
Proof.
  apply rows_beyond_int_undefined.
  - unfold is_extent. simpl. lia.
  - exact fits_int_1.
  - simpl. lia.
  - vm_compute. split; [discriminate|reflexivity].
  - vm_compute. discriminate.
Defined.

(** ** What a call reads and what it writes *)

Section Region.

Context {T : Type} `{Scalar T}.

Lemma tiled_log_ext {W} (s1 s2 : Z -> Z -> list W) N F :
  (forall n f, 0 <= n < N -> 0 <= f < F -> s1 n f = s2 n f) ->
  tiled_log s1 N F = tiled_log s2 N F.
Proof.
  intros Hs. unfold tiled_log. f_equal. apply list_fmap_ext.
  intros i [b t] Hi. simpl.
  destruct (decide _) as [[Hn Hf]|]; [|reflexivity].
  apply list_elem_of_lookup_2 in Hi.
  apply elem_of_grid_threads in Hi as [Hb Ht].
  apply elem_of_block_indices in Hb, Ht. simpl in Ht. apply Hs; lia.
Qed.

(** X5. The forward operation reads nothing but the corners 0..7 of the
    N cubes and the coordinates 0..2 of the first N points.  Two calls with
    the same N, F <= INT_MAX, each with shapes that suffice (at least 8
    corners, at least N points of at least 3 coordinates), whose inputs hold
    the same data there return the same tensor: further corners, further
    coordinates and further points never reach the result. *)
Theorem forward_reads_bounded
    (features features' : Tensor3 T) (points points' : Tensor2 T) :
  fits_int (t3_size0 features) -> fits_int (t3_size2 features) ->
  t3_size0 features' = t3_size0 features -> t3_size2 features' = t3_size2 features ->
  forward_shapes_suffice features points -> forward_shapes_suffice features' points' ->
  agree_within3 (t3_size0 features) 8 (t3_size2 features) features features' ->
  agree_within2 (t3_size0 features) 3 points points' ->
  trilinear_forward_cu features points = trilinear_forward_cu features' points'.
Proof.
  intros HN HF HN' HF' Hs Hs' Hfeat Hpts.
  rewrite (forward_cu_returns features points) by assumption.
  rewrite (forward_cu_returns features' points') by (rewrite ?HN', ?HF'; assumption).
  rewrite HN', HF'. do 3 f_equal. apply tiled_log_ext.
  intros n f Hn Hf. unfold forward_stores, forward_value.
  rewrite !Hfeat, !Hpts by lia. reflexivity.
Qed.

(** X6. The backward operation reads nothing but the coordinates 0..2 of
    the first N points and the first N rows and F columns of the upstream
    gradient; of Features it takes N and F only.  Two calls with the same
    N, F <= INT_MAX, each with shapes that suffice, whose Points and
    UpstreamGradient hold the same data there return the same tensor,
    whatever the two Features hold and however many corners they have. *)
Theorem backward_reads_bounded
    (grad grad' : Tensor2 T) (features features' : Tensor3 T) (points points' : Tensor2 T) :
  fits_int (t3_size0 features) -> fits_int (t3_size2 features) ->
  t3_size0 features' = t3_size0 features -> t3_size2 features' = t3_size2 features ->
  backward_shapes_suffice grad features points ->
  backward_shapes_suffice grad' features' points' ->
  agree_within2 (t3_size0 features) 3 points points' ->
  agree_within2 (t3_size0 features) (t3_size2 features) grad grad' ->
  trilinear_backward_cu grad features points =
  trilinear_backward_cu grad' features' points'.
Proof.
  intros HN HF HN' HF' Hs Hs' Hpts Hgrad.
  rewrite (backward_cu_returns grad features points) by assumption.
  rewrite (backward_cu_returns grad' features' points')
    by (rewrite ?HN', ?HF'; assumption).
  rewrite HN', HF'. do 3 f_equal. apply tiled_log_ext.
  intros n f Hn Hf. unfold backward_stores.
  rewrite !Hpts by lia. rewrite (Hgrad n f) by lia. reflexivity.
Qed.

(** X7. The backward launch writes every element of its result once and
    nothing else.  With N, F <= INT_MAX and shapes that suffice, the launch
    over the grid of the wrapper runs to its end, the wrapper returns the
    (N, 8, F) tensor of its stores, and among all the stores of the launch
    exactly one goes to the element (n, c, f) when 0 <= n < N, 0 <= c < 8
    and 0 <= f < F, and none goes to any other index. *)
Theorem backward_writes_each_element_once
    (grad : Tensor2 T) (features : Tensor3 T) (points : Tensor2 T) :
  fits_int (t3_size0 features) -> fits_int (t3_size2 features) ->
  backward_shapes_suffice grad features points ->
  exists log,
    launch (trilinear_backward_kernel features points grad
              (MkBuffer3 (t3_size0 features) 8 (t3_size2 features) ∅))
           (tile_grid (t3_size0 features) (t3_size2 features)) tile_block = Some log /\
    trilinear_backward_cu grad features points =
      Returned (MkBuffer3 (t3_size0 features) 8 (t3_size2 features)
                  (apply_stores log ∅)) /\
    forall n c f,
      length (stores_to (n, c, f) log) =
      if decide (0 <= n < t3_size0 features /\ 0 <= c < 8 /\
                 0 <= f < t3_size2 features)
      then 1%nat else 0%nat.
Proof.
  intros HN HF Hs.
  exists (tiled_log (backward_stores points grad)
            (t3_size0 features) (t3_size2 features)).
  split; [now apply backward_launch_tiled|].
  split; [now apply backward_cu_returns|].
  intros n c f. destruct (decide _) as [(Hn & Hc & Hf)|Hout].
  - destruct (backward_stores_to points grad _ _ n c f HN HF Hn Hf Hc) as (wt & _ & ->).
    reflexivity.
  - unfold stores_to. rewrite tiled_log_filter_none; [reflexivity|].
    intros n' f' Hn' Hf'. unfold backward_stores, corner_weights. cbv zeta.
    simpl imap.
    repeat first
      [ rewrite filter_cons_False by (simpl; intros [= -> ? ->]; lia)
      | rewrite filter_nil ].
    reflexivity.
Qed.

End Region.

(** The ninth corner, the fourth coordinate and the second column of the
    upstream gradient change nothing. *)
Lemma forward_reads_bounded_witness :
  trilinear_forward_cu wide_features wide_points =
  trilinear_forward_cu cut_features cut_points.
Proof.
  apply forward_reads_bounded.
  - exact fits_int_1.
  - exact fits_int_1.
  - reflexivity.
  - reflexivity.
  - unfold forward_shapes_suffice. simpl. lia.
  - unfold forward_shapes_suffice. simpl. lia.
  - intros n c f _ _ _. reflexivity.
  - intros n j _ _. reflexivity.
Defined.

Lemma backward_reads_bounded_witness :
  trilinear_backward_cu wide_grad wide_features wide_points =
  trilinear_backward_cu cut_grad narrow_features cut_points.
Proof.
  apply backward_reads_bounded.
  - exact fits_int_1.
  - exact fits_int_1.
  - reflexivity.
  - reflexivity.
  - unfold backward_shapes_suffice. simpl. lia.
  - unfold backward_shapes_suffice. simpl. lia.
  - intros n j _ _. reflexivity.
  - intros n j _ _. reflexivity.
Defined.

Lemma backward_writes_each_element_once_witness :
  exists log,
    launch (trilinear_backward_kernel scenario_features scenario_points scenario_grad
              (MkBuffer3 1 8 1 ∅))
           (tile_grid 1 1) tile_block = Some log /\
    trilinear_backward_cu scenario_grad scenario_features scenario_points =
      Returned (MkBuffer3 1 8 1 (apply_stores log ∅)) /\
    forall n c f,
      length (stores_to (n, c, f) log) =
      if decide (0 <= n < 1 /\ 0 <= c < 8 /\ 0 <= f < 1) then 1%nat else 0%nat.
Proof.
  apply (backward_writes_each_element_once scenario_grad scenario_features
           scenario_points).
  - exact fits_int_1.
  - exact fits_int_1.
  - unfold backward_shapes_suffice. simpl. lia.
Defined.

(** The threads of the scenario, run in the reverse of the grid order. *)
Lemma forward_schedule_independent_witness :
  exists log,
    run_threads (trilinear_forward_kernel scenario_features scenario_points
                   (MkBuffer2 1 1 ∅))
                tile_block (reverse (grid_threads (tile_grid 1 1) tile_block)) = Some log /\
    trilinear_forward_cu scenario_features scenario_points =
    Returned (MkBuffer2 1 1 (apply_stores log ∅)).
Proof.
  apply (forward_schedule_independent scenario_features scenario_points).
  - exact (proj1 scenario_call_ok).
  - apply reverse_Permutation.
Defined.

Lemma backward_schedule_independent_witness :
  exists log,
    run_threads (trilinear_backward_kernel scenario_features scenario_points
                   scenario_grad (MkBuffer3 1 8 1 ∅))
                tile_block (reverse (grid_threads (tile_grid 1 1) tile_block)) = Some log /\
    trilinear_backward_cu scenario_grad scenario_features scenario_points =
    Returned (MkBuffer3 1 8 1 (apply_stores log ∅)).
Proof.
  apply (backward_schedule_independent scenario_grad scenario_features scenario_points).
  - exact scenario_call_ok.
  - apply reverse_Permutation.
Defined.

(** ** The interpolant over the real numbers *)

Section Interpolation.

Local Open Scope R_scope.

Lemma forward_value_lerp (features : Tensor3 R) (points : Tensor2 R) n f :
  let Feat := fun corner : Z => t3_data features n corner f in
  let u := (t2_data points n 0%Z + 1) / 2 in
  let v := (t2_data points n 1%Z + 1) / 2 in
  let w := (t2_data points n 2%Z + 1) / 2 in
  forward_value features points n f =
  lerp u (lerp v (lerp w (Feat 0%Z) (Feat 1%Z)) (lerp w (Feat 2%Z) (Feat 3%Z)))
         (lerp v (lerp w (Feat 4%Z) (Feat 5%Z)) (lerp w (Feat 6%Z) (Feat 7%Z))).
Proof. cbv zeta. unfold forward_value, lerp. simpl. ring. Qed.

Lemma lerp_range t x y lo hi :
  0 <= t <= 1 -> lo <= x <= hi -> lo <= y <= hi -> lo <= lerp t x y <= hi.
Proof. unfold lerp. intros Ht Hx Hy. split; nra. Qed.

Lemma unit_product x y : 0 <= x <= 1 -> 0 <= y <= 1 -> 0 <= x * y <= 1.
Proof. intros Hx Hy. split; nra. Qed.

(** The element the backward call writes, on shapes that suffice. *)
Lemma backward_cell_weight (grad : Tensor2 R) features points n c f :
  fits_int (t3_size0 features) -> fits_int (t3_size2 features) ->
  backward_shapes_suffice grad features points ->
  (0 <= n < t3_size0 features)%Z -> (0 <= c < 8)%Z -> (0 <= f < t3_size2 features)%Z ->
  cell3 (trilinear_backward_cu grad features points) n c f =
  Some (weight_of points n c * t2_data grad n f).
Proof.
  intros HN HF Hs Hn Hc Hf.
  destruct (backward_cell grad features points n c f HN HF Hs Hn Hf Hc) as (wt & Hw & ->).
  unfold weight_of. now rewrite Hw.
Qed.

(** Inside the cube every corner weight lies between 0 and 1. *)
Lemma weight_of_unit (points : Tensor2 R) n c :
  (forall j, (0 <= j < 3)%Z -> -1 <= t2_data points n j <= 1) ->
  (0 <= c < 8)%Z -> 0 <= weight_of points n c <= 1.
Proof.
  intros Hp Hc.
  pose proof (Hp 0%Z ltac:(lia)) as H0. pose proof (Hp 1%Z ltac:(lia)) as H1.
  pose proof (Hp 2%Z ltac:(lia)) as H2.
  unfold weight_of, corner_weights. simpl s_lit. simpl s_add. simpl s_div.
  simpl s_sub. simpl s_mul. cbv zeta.
  set (u := (t2_data points n 0%Z + 1) / 2).
  set (v := (t2_data points n 1%Z + 1) / 2).
  set (w := (t2_data points n 2%Z + 1) / 2).
  assert (0 <= u <= 1) as Hu by (unfold u; lra).
  assert (0 <= v <= 1) as Hv by (unfold v; lra).
  assert (0 <= w <= 1) as Hw by (unfold w; lra).
  assert (0 <= 1 - u <= 1) as Hu' by lra.
  assert (0 <= 1 - v <= 1) as Hv' by lra.
  assert (0 <= 1 - w <= 1) as Hw' by lra.
  replace (1 - (1 - v) * (1 - w) - (1 - v) * w - v * (1 - w)) with (v * w) by ring.
  assert (c = 0 \/ c = 1 \/ c = 2 \/ c = 3 \/ c = 4 \/ c = 5 \/ c = 6 \/ c = 7)%Z
    as Hcases by lia.
  repeat (destruct Hcases as [->|Hcases]); try subst c; simpl;
    auto using unit_product.
Qed.

(** X10. Over the real numbers the forward kernel computes three nested
    linear interpolations: with N, F <= INT_MAX and shapes that suffice,
    Output[n,f] is the interpolation at u between the two faces u = 0
    (corners 0..3) and u = 1 (corners 4..7), each face interpolated at v
    between its two edges, each edge at w between its two corners, where
    lerp t x y = (1-t)*x + t*y.  So the coefficient d = 1-a-b-c of the
    source is v*w, and corner 4i+2j+k sits at (u, v, w) = (i, j, k). *)
Theorem forward_is_nested_lerp (features : Tensor3 R) (points : Tensor2 R) (n f : Z) :
  fits_int (t3_size0 features) -> fits_int (t3_size2 features) ->
  forward_shapes_suffice features points ->
  (0 <= n < t3_size0 features)%Z -> (0 <= f < t3_size2 features)%Z ->
  let Feat := fun corner : Z => t3_data features n corner f in
  let u := (t2_data points n 0%Z + 1) / 2 in
  let v := (t2_data points n 1%Z + 1) / 2 in
  let w := (t2_data points n 2%Z + 1) / 2 in
  cell2 (trilinear_forward_cu features points) n f =
  Some (lerp u
          (lerp v (lerp w (Feat 0%Z) (Feat 1%Z)) (lerp w (Feat 2%Z) (Feat 3%Z)))
          (lerp v (lerp w (Feat 4%Z) (Feat 5%Z)) (lerp w (Feat 6%Z) (Feat 7%Z)))).
Proof.
  intros HN HF Hs Hn Hf. cbv zeta.
  rewrite forward_cell by assumption. f_equal. apply forward_value_lerp.
Qed.

(** X11. Over the real numbers, for a query point inside the cube (every
    coordinate of Points[n] in [-1, 1]) the output stays within the range of
    the corner features: if lo <= Features[n,c,f] <= hi for the corners
    c = 0..7 then lo <= Output[n,f] <= hi. *)
Theorem forward_within_corner_range
    (features : Tensor3 R) (points : Tensor2 R) (n f : Z) (lo hi : R) :
  fits_int (t3_size0 features) -> fits_int (t3_size2 features) ->
  forward_shapes_suffice features points ->
  (0 <= n < t3_size0 features)%Z -> (0 <= f < t3_size2 features)%Z ->
  (forall j, (0 <= j < 3)%Z -> -1 <= t2_data points n j <= 1) ->
  (forall c, (0 <= c < 8)%Z -> lo <= t3_data features n c f <= hi) ->
  exists y, cell2 (trilinear_forward_cu features points) n f = Some y /\ lo <= y <= hi.
Proof.
  intros HN HF Hs Hn Hf Hp Hc.
  rewrite forward_cell by assumption. eexists. split; [reflexivity|].
  rewrite forward_value_lerp.
  pose proof (Hp 0%Z ltac:(lia)). pose proof (Hp 1%Z ltac:(lia)).
  pose proof (Hp 2%Z ltac:(lia)).
  repeat apply lerp_range; try (apply Hc; lia); lra.
Qed.

(** X12. Over the real numbers the forward operation reproduces constants:
    when the eight corners of cube n carry the same feature k in channel f,
    Output[n,f] = k for every query point, also one outside the cube. *)
Theorem forward_reproduces_constants
    (features : Tensor3 R) (points : Tensor2 R) (n f : Z) (k : R) :
  fits_int (t3_size0 features) -> fits_int (t3_size2 features) ->
  forward_shapes_suffice features points ->
  (0 <= n < t3_size0 features)%Z -> (0 <= f < t3_size2 features)%Z ->
  (forall c, (0 <= c < 8)%Z -> t3_data features n c f = k) ->
  cell2 (trilinear_forward_cu features points) n f = Some k.
Proof.
  intros HN HF Hs Hn Hf Hc.
  rewrite forward_cell by assumption. f_equal.
  unfold forward_value. rewrite !Hc by lia. simpl. ring.
Qed.

(** X13. Over the real numbers the output is affine in each coordinate of
    the query point, the two others fixed, and nothing is clamped: for
    j = 0, 1, 2, any x0, x1 and any t, also outside [0, 1], the output at
    the coordinate (1-t)*x0 + t*x1 is (1-t) times the output at x0 plus t
    times the output at x1. *)
Theorem forward_affine_in_coordinate
    (features : Tensor3 R) (points : Tensor2 R) (n f j : Z) (x0 x1 t : R) :
  fits_int (t3_size0 features) -> fits_int (t3_size2 features) ->
  forward_shapes_suffice features points ->
  (0 <= n < t3_size0 features)%Z -> (0 <= f < t3_size2 features)%Z ->
  (0 <= j < 3)%Z ->
  exists y0 y1,
    cell2 (trilinear_forward_cu features (set_point points n j x0)) n f = Some y0 /\
    cell2 (trilinear_forward_cu features (set_point points n j x1)) n f = Some y1 /\
    cell2 (trilinear_forward_cu features
             (set_point points n j ((1 - t) * x0 + t * x1))) n f
      = Some ((1 - t) * y0 + t * y1).
Proof.
  intros HN HF Hs Hn Hf Hj.
  rewrite !forward_cell by assumption.
  do 2 eexists. split; [reflexivity|]. split; [reflexivity|]. f_equal.
  assert (j = 0 \/ j = 1 \/ j = 2)%Z as [-> | [-> | ->]] by lia;
    unfold forward_value, set_point; simpl;
    repeat match goal with
           | |- context [@decide ?P ?d] =>
             first [ rewrite (@decide_True _ P d) by lia
                   | rewrite (@decide_False _ P d) by lia ]
           end; field.
Qed.

(** X14. Over the real numbers, reflecting the query points in the middle
    plane of an axis and exchanging the corners across that plane leaves the
    output unchanged: negating the coordinate j of Points goes with
    exchanging each corner c with c xor 2^(2-j), so the coordinate 0 is the
    bit 4 of the corner index, the coordinate 1 the bit 2 and the
    coordinate 2 the bit 1. *)
Theorem forward_reflection_symmetry
    (features : Tensor3 R) (points : Tensor2 R) (n f j : Z) :
  fits_int (t3_size0 features) -> fits_int (t3_size2 features) ->
  forward_shapes_suffice features points ->
  (0 <= n < t3_size0 features)%Z -> (0 <= f < t3_size2 features)%Z ->
  (0 <= j < 3)%Z ->
  cell2 (trilinear_forward_cu (swap_corners (2 ^ (2 - j)) features)
           (reflect_points j points)) n f
  = cell2 (trilinear_forward_cu features points) n f.
Proof.
  intros HN HF Hs Hn Hf Hj.
  rewrite !forward_cell by assumption. f_equal.
  assert (j = 0 \/ j = 1 \/ j = 2)%Z as [-> | [-> | ->]] by lia;
    unfold forward_value, swap_corners, reflect_points; simpl;
    repeat match goal with
           | |- context [Z.lxor ?a ?b] =>
             let z := eval vm_compute in (Z.lxor a b) in change (Z.lxor a b) with z
           end; field.
Qed.

(** X15. Over the real numbers the backward operation is linear in the
    upstream gradient: for upstream gradients g1, g2 and factors k1, k2,
    FeatureGradient(k1*g1 + k2*g2)[n,c,f] =
    k1 * FeatureGradient(g1)[n,c,f] + k2 * FeatureGradient(g2)[n,c,f],
    all three elements being written. *)
Theorem backward_linear_in_gradient
    (g1 g2 : Tensor2 R) (features : Tensor3 R) (points : Tensor2 R)
    (k1 k2 : R) (n c f : Z) :
  fits_int (t3_size0 features) -> fits_int (t3_size2 features) ->
  backward_shapes_suffice g1 features points ->
  backward_shapes_suffice g2 features points ->
  (0 <= n < t3_size0 features)%Z -> (0 <= c < 8)%Z -> (0 <= f < t3_size2 features)%Z ->
  exists x y,
    cell3 (trilinear_backward_cu g1 features points) n c f = Some x /\
    cell3 (trilinear_backward_cu g2 features points) n c f = Some y /\
    cell3 (trilinear_backward_cu (combine_grad k1 g1 k2 g2) features points) n c f
      = Some (k1 * x + k2 * y).
Proof.
  intros HN HF Hs1 Hs2 Hn Hc Hf.
  rewrite !backward_cell_weight by assumption.
  do 2 eexists. split; [reflexivity|]. split; [reflexivity|]. f_equal.
  unfold combine_grad. simpl. ring.
Qed.

(** X16. Over the real numbers the backward operation hands the whole
    upstream gradient on to the corners: the eight elements
    FeatureGradient[n,0..7,f] sum to UpstreamGradient[n,f], for every query
    point. *)
Theorem gradient_sums_to_upstream
    (grad : Tensor2 R) (features : Tensor3 R) (points : Tensor2 R) (n f : Z) :
  fits_int (t3_size0 features) -> fits_int (t3_size2 features) ->
  backward_shapes_suffice grad features points ->
  (0 <= n < t3_size0 features)%Z -> (0 <= f < t3_size2 features)%Z ->
  sumZ 8 (fun c => value3 (trilinear_backward_cu grad features points) n c f)
  = t2_data grad n f.
Proof.
  intros HN HF Hs Hn Hf. rewrite sumZ_8. unfold value3.
  rewrite !backward_cell_weight by (assumption || lia).
  unfold weight_of, corner_weights. simpl. ring.
Qed.

(** X17. Over the real numbers, when the normalised coordinates (u, v, w)
    of Points[n] lie in {0,1}^3 the backward operation passes the upstream
    gradient to that corner alone: FeatureGradient[n,c,f] is
    UpstreamGradient[n,f] for c = 4u + 2v + w and 0 for the seven other
    corners. *)
Theorem backward_corner_exactness
    (grad : Tensor2 R) (features : Tensor3 R) (points : Tensor2 R) (n c f : Z)
    (u v w : bool) :
  fits_int (t3_size0 features) -> fits_int (t3_size2 features) ->
  backward_shapes_suffice grad features points ->
  (0 <= n < t3_size0 features)%Z -> (0 <= c < 8)%Z -> (0 <= f < t3_size2 features)%Z ->
  (t2_data points n 0%Z + 1) / 2 = IZR (Z.b2z u) ->
  (t2_data points n 1%Z + 1) / 2 = IZR (Z.b2z v) ->
  (t2_data points n 2%Z + 1) / 2 = IZR (Z.b2z w) ->
  cell3 (trilinear_backward_cu grad features points) n c f =
  Some (if decide (c = 4 * Z.b2z u + 2 * Z.b2z v + Z.b2z w)%Z
        then t2_data grad n f else 0).
Proof.
  intros HN HF Hs Hn Hc Hf Hu Hv Hw.
  rewrite backward_cell_weight by assumption. f_equal.
  unfold weight_of, corner_weights. simpl s_lit. simpl s_add. simpl s_div.
  cbv zeta. rewrite Hu, Hv, Hw.
  assert (c = 0 \/ c = 1 \/ c = 2 \/ c = 3 \/ c = 4 \/ c = 5 \/ c = 6 \/ c = 7)%Z
    as Hcases by lia.
  repeat (destruct Hcases as [->|Hcases]); try subst c;
    destruct u, v, w; simpl; ring.
Qed.

(** X18. Over the real numbers, for a query point inside the cube (every
    coordinate of Points[n] in [-1, 1]) no element of the gradient exceeds
    the upstream gradient in absolute value:
    |FeatureGradient[n,c,f]| <= |UpstreamGradient[n,f]|. *)
Theorem gradient_bounded_by_upstream
    (grad : Tensor2 R) (features : Tensor3 R) (points : Tensor2 R) (n c f : Z) :
  fits_int (t3_size0 features) -> fits_int (t3_size2 features) ->
  backward_shapes_suffice grad features points ->
  (0 <= n < t3_size0 features)%Z -> (0 <= c < 8)%Z -> (0 <= f < t3_size2 features)%Z ->
  (forall j, (0 <= j < 3)%Z -> -1 <= t2_data points n j <= 1) ->
  exists y,
    cell3 (trilinear_backward_cu grad features points) n c f = Some y /\
    Rabs y <= Rabs (t2_data grad n f).
Proof.
  intros HN HF Hs Hn Hc Hf Hp.
  rewrite backward_cell_weight by assumption. eexists. split; [reflexivity|].
  destruct (weight_of_unit points n c Hp Hc) as [Hw0 Hw1].
  rewrite Rabs_mult, (Rabs_pos_eq _ Hw0).
  pose proof (Rabs_pos (t2_data grad n f)). nra.
Qed.

End Interpolation.

Lemma forward_is_nested_lerp_witness :
  let Feat := fun corner : Z => t3_data ramp_features 0 corner 0 in
  let u := ((t2_data corner_points 0 0 + 1) / 2)%R in
  let v := ((t2_data corner_points 0 1 + 1) / 2)%R in
  let w := ((t2_data corner_points 0 2 + 1) / 2)%R in
  cell2 (trilinear_forward_cu ramp_features corner_points) 0 0 =
  Some (lerp u
          (lerp v (lerp w (Feat 0) (Feat 1)) (lerp w (Feat 2) (Feat 3)))
          (lerp v (lerp w (Feat 4) (Feat 5)) (lerp w (Feat 6) (Feat 7)))).
Proof.
  apply (forward_is_nested_lerp ramp_features corner_points 0 0).
  - exact fits_int_1.
  - exact fits_int_1.
  - exact ramp_suffices.
  - simpl. lia.
  - simpl. lia.
Defined.

Lemma forward_within_corner_range_witness :
  exists y,
    cell2 (trilinear_forward_cu ramp_features corner_points) 0 0 = Some y /\
    (0 <= y <= 7)%R.
Proof.
  apply (forward_within_corner_range ramp_features corner_points 0 0 0 7).
  - exact fits_int_1.
  - exact fits_int_1.
  - exact ramp_suffices.
  - simpl. lia.
  - simpl. lia.
  - intros j _. simpl. destruct (j =? 1); lra.
  - intros c Hc. simpl. split; apply IZR_le; lia.
Defined.

Lemma forward_reproduces_constants_witness :
  cell2 (trilinear_forward_cu flat_features corner_points) 0 0 = Some 3%R.
Proof.
  apply (forward_reproduces_constants flat_features corner_points 0 0 3).
  - exact fits_int_1.
  - exact fits_int_1.
  - unfold forward_shapes_suffice. simpl. lia.
  - simpl. lia.
  - simpl. lia.
  - intros c _. reflexivity.
Defined.

Lemma forward_affine_in_coordinate_witness :
  exists y0 y1,
    cell2 (trilinear_forward_cu ramp_features (set_point corner_points 0 0 (-1))) 0 0
      = Some y0 /\
    cell2 (trilinear_forward_cu ramp_features (set_point corner_points 0 0 1)) 0 0
      = Some y1 /\
    cell2 (trilinear_forward_cu ramp_features
             (set_point corner_points 0 0 ((1 - 3) * (-1) + 3 * 1))) 0 0
      = Some ((1 - 3) * y0 + 3 * y1)%R.
Proof.
  apply (forward_affine_in_coordinate ramp_features corner_points 0 0 0 (-1) 1 3).
  - exact fits_int_1.
  - exact fits_int_1.
  - exact ramp_suffices.
  - simpl. lia.
  - simpl. lia.
  - lia.
Defined.

Lemma forward_reflection_symmetry_witness :
  cell2 (trilinear_forward_cu (swap_corners 4 ramp_features)
           (reflect_points 0 corner_points)) 0 0
  = cell2 (trilinear_forward_cu ramp_features corner_points) 0 0.
Proof.
  apply (forward_reflection_symmetry ramp_features corner_points 0 0 0).
  - exact fits_int_1.
  - exact fits_int_1.
  - exact ramp_suffices.
  - simpl. lia.
  - simpl. lia.
  - lia.
Defined.

Lemma backward_linear_in_gradient_witness :
  exists x y,
    cell3 (trilinear_backward_cu unit_grad ramp_features corner_points) 0 5 0 = Some x /\
    cell3 (trilinear_backward_cu unit_grad ramp_features corner_points) 0 5 0 = Some y /\
    cell3 (trilinear_backward_cu (combine_grad 2 unit_grad 3 unit_grad)
             ramp_features corner_points) 0 5 0
      = Some (2 * x + 3 * y)%R.
Proof.
  apply (backward_linear_in_gradient unit_grad unit_grad ramp_features corner_points
           2 3 0 5 0).
  - exact fits_int_1.
  - exact fits_int_1.
  - exact ramp_backward_suffices.
  - exact ramp_backward_suffices.
  - simpl. lia.
  - lia.
  - simpl. lia.
Defined.

Lemma gradient_sums_to_upstream_witness :
  sumZ 8 (fun c => value3 (trilinear_backward_cu unit_grad ramp_features corner_points)
                     0 c 0)
  = 1%R.
Proof.
  apply (gradient_sums_to_upstream unit_grad ramp_features corner_points 0 0).
  - exact fits_int_1.
  - exact fits_int_1.
  - exact ramp_backward_suffices.
  - simpl. lia.
  - simpl. lia.
Defined.

(** At the corner (u, v, w) = (1, 0, 1) the corner 5 receives the upstream
    gradient and the corner 4 nothing. *)
Lemma backward_corner_exactness_witness :
  cell3 (trilinear_backward_cu unit_grad ramp_features corner_points) 0 5 0 = Some 1%R /\
  cell3 (trilinear_backward_cu unit_grad ramp_features corner_points) 0 4 0 = Some 0%R.
Proof.
  split.
  - apply (backward_corner_exactness unit_grad ramp_features corner_points 0 5 0
             true false true).
    + exact fits_int_1.
    + exact fits_int_1.
    + exact ramp_backward_suffices.
    + simpl. lia.
    + lia.
    + simpl. lia.
    + simpl. lra.
    + simpl. lra.
    + simpl. lra.
  - apply (backward_corner_exactness unit_grad ramp_features corner_points 0 4 0
             true false true).
    + exact fits_int_1.
    + exact fits_int_1.
    + exact ramp_backward_suffices.
    + simpl. lia.
    + lia.
    + simpl. lia.
    + simpl. lra.
    + simpl. lra.
    + simpl. lra.
Defined.

Lemma gradient_bounded_by_upstream_witness :
  exists y,
    cell3 (trilinear_backward_cu unit_grad ramp_features corner_points) 0 5 0 = Some y /\
    (Rabs y <= Rabs (t2_data unit_grad 0 0))%R.
Proof.
  apply (gradient_bounded_by_upstream unit_grad ramp_features corner_points 0 5 0).
  - exact fits_int_1.
  - exact fits_int_1.
  - exact ramp_backward_suffices.
  - simpl. lia.
  - lia.
  - simpl. lia.
  - intros j _. simpl. destruct (j =? 1); lra.
Defined.
